(** * CYOP300W2: the voter registration flow

    A shallow embedding of the second program of [CYOP300W2.py] (the part
    that starts at [import re]): the six prompting functions, the
    continuation question, the step loop of [main], and the properties of
    the guarded step pipeline that the specification states about them.

    Text. A Python [str] is modelled as a Rocq [string] whose characters are
    the code points U+0000..U+00FF, so the statements below are about the
    lines that can be written with these characters. On that range the [str]
    methods follow CPython's Unicode tables: [isspace] knows U+0085 and
    U+00A0, and [isdigit] knows the superscript digits. Unicode has more
    digit characters above U+00FF, some of which [int] converts and some of
    which it rejects; so wherever a statement depends on what counts as a
    number, it is phrased through [isdigit] and [int] themselves and not
    through a list of characters.

    [int] is the [int] of CPython 3.11: it skips the whitespace that C's
    [isspace] knows, and U+0085 and U+00A0, but not U+001C..U+001F, which
    [strip] removes; and it raises [ValueError] on a literal of more than
    4300 digits, the default of [sys.get_int_max_str_digits()].

    Input and output. [input()] reads the next line of a finite script and
    raises [EOFError] when the script is used up. [print] only writes to the
    terminal and never changes the control flow, so it is left out.

    State. A run threads what is left of the input and the local [results]
    of [main]; [main] may be started with any [results] left over from an
    earlier run and sets it to the empty map itself, as line 397 does. *)

From Stdlib Require Import ZArith Ascii String List Bool Lia.
From Stdlib Require Import DecimalString DecimalZ DecimalPos DecimalFacts.
From stdpp Require Import gmap strings.

Open Scope string_scope.
Open Scope Z_scope.

#[local] Arguments String.append !s1 s2 : simpl nomatch.

(** ** The [str] methods the program uses *)

Module Str.

Definition ord (c : ascii) : N := N_of_ascii c.

Definition between (lo hi n : N) : bool := ((lo <=? n) && (n <=? hi))%N.

(** [c.isspace()]: TAB..CR, FS..US, SPACE, NEL and NBSP. *)
Definition isspace_char (c : ascii) : bool :=
  between 9 13 (ord c) || between 28 32 (ord c)
  || (ord c =? 133)%N || (ord c =? 160)%N.

(** The decimal digits (category Nd): on this range [0-9]. They are what
    [\d] matches and what [int()] converts. *)
Definition isdecimal_char (c : ascii) : bool := between 48 57 (ord c).

(** [c.isdigit()]: on this range the decimal digits and the superscripts
    two, three and one, which are digits and no decimal digits. *)
Definition isdigit_char (c : ascii) : bool :=
  isdecimal_char c
  || (ord c =? 178)%N || (ord c =? 179)%N || (ord c =? 185)%N.

Definition lower_char (c : ascii) : ascii :=
  if between 65 90 (ord c)
     || (between 192 222 (ord c) && negb (ord c =? 215)%N)
  then ascii_of_N (ord c + 32) else c.

(** [c.upper()] is a string: sharp s becomes "SS". The micro sign and y with
    diaeresis have capitals above U+00FF; the only caller compares the
    result with ASCII text, which fails for them either way, so the model
    keeps the character. *)
Definition upper_char (c : ascii) : string :=
  if between 97 122 (ord c)
     || (between 224 254 (ord c) && negb (ord c =? 247)%N)
  then String (ascii_of_N (ord c - 32)) ""
  else if (ord c =? 223)%N then "SS"
  else String c "".

Fixpoint forall_chars (p : ascii -> bool) (s : string) : bool :=
  match s with
  | "" => true
  | String c s' => p c && forall_chars p s'
  end.

Definition is_empty (s : string) : bool :=
  match s with "" => true | _ => false end.

Fixpoint lstrip (s : string) : string :=
  match s with
  | "" => ""
  | String c s' => if isspace_char c then lstrip s' else s
  end.

Fixpoint rstrip (s : string) : string :=
  match s with
  | "" => ""
  | String c s' =>
      let t := rstrip s' in
      if isspace_char c && is_empty t then "" else String c t
  end.

(** [s.strip()] *)
Definition strip (s : string) : string := rstrip (lstrip s).

(** [s.lower()] *)
Fixpoint lower (s : string) : string :=
  match s with
  | "" => ""
  | String c s' => String (lower_char c) (lower s')
  end.

(** [s.upper()] *)
Fixpoint upper (s : string) : string :=
  match s with
  | "" => ""
  | String c s' => upper_char c ++ upper s'
  end.

(** [s.isdigit()]: at least one character, all of them digits. *)
Definition isdigit (s : string) : bool :=
  negb (is_empty s) && forall_chars isdigit_char s.

(** [len(s)] *)
Definition len (s : string) : Z := Z.of_nat (String.length s).

(** The decimal string of [n]: what [str(n)] returns for an [int] of at
    most 4300 digits. The program applies it to accepted ages only; in the
    statements it also names the decimal string of a larger number. *)
Definition str (n : Z) : string := NilZero.string_of_int (Z.to_int n).

Definition digit_value (c : ascii) : Z := Z.of_N (ord c) - 48.

(** The digits of an [int()] literal: decimal digits, with single
    underscores allowed between digits. *)
Fixpoint int_digits (s : string) (acc : Z) (after_digit : bool) : option Z :=
  match s with
  | "" => if after_digit then Some acc else None
  | String c s' =>
      if isdecimal_char c then int_digits s' (10 * acc + digit_value c) true
      else if Ascii.eqb c "_" && after_digit then int_digits s' acc false
      else None
  end.

(** The whitespace [int()] skips around a literal: TAB..CR and SPACE, and
    of the characters from U+0080 on those that are whitespace, NEL and NBSP.
    FS..US are whitespace for [strip] and not for [int]. *)
Definition int_space_char (c : ascii) : bool :=
  between 9 13 (ord c) || (ord c =? 32)%N
  || (ord c =? 133)%N || (ord c =? 160)%N.

Fixpoint int_lstrip (s : string) : string :=
  match s with
  | "" => ""
  | String c s' => if int_space_char c then int_lstrip s' else s
  end.

Fixpoint int_rstrip (s : string) : string :=
  match s with
  | "" => ""
  | String c s' =>
      let t := int_rstrip s' in
      if int_space_char c && is_empty t then "" else String c t
  end.

(** [sys.get_int_max_str_digits()], at its default. *)
Definition max_str_digits : Z := 4300.

(** The digits of a literal, as the limit counts them: underscores and the
    sign do not count, leading zeros do. *)
Fixpoint count_digits (s : string) : Z :=
  match s with
  | "" => 0
  | String c s' => (if isdecimal_char c then 1 else 0) + count_digits s'
  end.

(** A literal without its sign: within the limit, its digits. *)
Definition int_literal (body : string) : option Z :=
  if max_str_digits <? count_digits body then None
  else int_digits body 0 false.

(** [int(s)] in base 10: surrounding whitespace, an optional sign, digits.
    [None] stands for [ValueError]. *)
Definition int (s : string) : option Z :=
  match int_rstrip (int_lstrip s) with
  | "" => None
  | String c body =>
      if Ascii.eqb c "-" then option_map Z.opp (int_literal body)
      else if Ascii.eqb c "+" then int_literal body
      else int_literal (String c body)
  end.

End Str.


(** ** Regular expressions, as far as [re.compile] is used here

    The two patterns of the program use character classes, sequencing, a
    star, an optional group, a counted repetition and a final [$]. They are
    matched with Brzozowski derivatives; [lang] is the reference meaning.
    Under [fullmatch] a [$] placed last in the pattern can only succeed at
    the end of the text, which is what [Eos] denotes. *)

Module Re.

Inductive item :=
| Chr (c : ascii)              (* a literal character *)
| Range (lo hi : ascii)        (* lo-hi *)
| Digit.                       (* \d *)

Definition item_matches (c : ascii) (i : item) : bool :=
  match i with
  | Chr d => Ascii.eqb c d
  | Range lo hi => Str.between (Str.ord lo) (Str.ord hi) (Str.ord c)
  | Digit => Str.isdecimal_char c
  end.

Definition in_class (items : list item) (c : ascii) : bool :=
  existsb (item_matches c) items.

Inductive re :=
| Empty
| Eps
| Eos
| Cls (items : list item)
| Seq (r1 r2 : re)
| Alt (r1 r2 : re)
| Star (r : re).

(** [(r)?] *)
Definition opt (r : re) : re := Alt r Eps.

(** [r{n}] *)
Fixpoint rep (n : nat) (r : re) : re :=
  match n with
  | O => Eps
  | S n' => Seq r (rep n' r)
  end.

Fixpoint nullable (r : re) : bool :=
  match r with
  | Empty => false
  | Eps => true
  | Eos => true
  | Cls _ => false
  | Seq r1 r2 => nullable r1 && nullable r2
  | Alt r1 r2 => nullable r1 || nullable r2
  | Star _ => true
  end.

Fixpoint deriv (c : ascii) (r : re) : re :=
  match r with
  | Empty => Empty
  | Eps => Empty
  | Eos => Empty
  | Cls items => if in_class items c then Eps else Empty
  | Seq r1 r2 =>
      if nullable r1 then Alt (Seq (deriv c r1) r2) (deriv c r2)
      else Seq (deriv c r1) r2
  | Alt r1 r2 => Alt (deriv c r1) (deriv c r2)
  | Star r1 => Seq (deriv c r1) (Star r1)
  end.

(** [pat.fullmatch(s)], as a truth value. *)
Fixpoint fullmatch (r : re) (s : string) : bool :=
  match s with
  | "" => nullable r
  | String c s' => fullmatch (deriv c r) s'
  end.

Inductive lang : re -> string -> Prop :=
| L_eps : lang Eps ""
| L_eos : lang Eos ""
| L_cls items c : in_class items c = true -> lang (Cls items) (String c "")
| L_seq r1 r2 s1 s2 : lang r1 s1 -> lang r2 s2 -> lang (Seq r1 r2) (s1 ++ s2)
| L_alt_l r1 r2 s : lang r1 s -> lang (Alt r1 r2) s
| L_alt_r r1 r2 s : lang r2 s -> lang (Alt r1 r2) s
| L_star_nil r : lang (Star r) ""
| L_star_app r s1 s2 :
    lang r s1 -> lang (Star r) s2 -> lang (Star r) (s1 ++ s2).

End Re.

(** ** The two patterns *)

Import Re.

(** [[A-Za-z][A-Za-z '\-]*$] *)
Definition name_pat : re :=
  Seq (Cls [Range "A" "Z"; Range "a" "z"])
      (Seq (Star (Cls [Range "A" "Z"; Range "a" "z"; Chr " "; Chr "'"; Chr "-"]))
           Eos).

(** [\d{5}(-\d{4})?$] *)
Definition zip_pat : re :=
  Seq (rep 5 (Cls [Digit]))
      (Seq (opt (Seq (Cls [Chr "-"]) (rep 4 (Cls [Digit]))))
           Eos).


(** ** Values, exceptions, results *)

(** The Python values the flow handles: [str], [int] and [bool]. *)
Inductive value :=
| VStr (s : string)
| VInt (n : Z)
| VBool (b : bool).

Inductive exn :=
| CancelRegistration (message : string)
| EOFError
| ValueError
| TypeError
| KeyError.

Inductive Res (A : Type) :=
| Ok (a : A)
| Raise (e : exn).
Arguments Ok {A} a.
Arguments Raise {A} e.

(** What one pass through the [while True:] body of a prompting function
    does with the line it read: [return value], fall through to the error
    message and the next pass, or [return None]. *)
Inductive ValidationOutcome :=
| Accepted (v : value)
| Retry
| CancelRequested.

(** How a run of [main] ends when no exception escapes: the success summary
    was printed for [results], or the handler printed [stop.message]. *)
Inductive Outcome :=
| Completed (result : gmap string value)
| Cancelled (reason : string).

(** Code that only reads [stdin]. *)
Definition Reader (A : Type) : Type := list string -> Res A * list string.

(** [input(prompt)] *)
Definition input : Reader string := fun inp =>
  match inp with
  | [] => (Raise EOFError, [])
  | line :: rest => (Ok line, rest)
  end.

(** ** The prompting functions *)

(** [CancelRegistration.__init__]'s default message. *)
Definition default_message : string := "Registration canceled. Goodbye!".

Definition _exit_requested (text : string) : bool :=
  bool_decide (Str.lower (Str.strip text) ∈ ({["exit"; "quit"]} : gset string)).

Definition _yes_no (value : string) : option bool :=
  let v := Str.lower (Str.strip value) in
  if bool_decide (v ∈ ({["y"; "yes"]} : gset string)) then Some true
  else if bool_decide (v ∈ ({["n"; "no"]} : gset string)) then Some false
  else None.

(** One pass of [isValidAge]'s loop. [int(age)] is evaluated for the range
    test and again for the returned value. *)
Definition isValidAge_attempt (line : string) : Res ValidationOutcome :=
  let age := Str.strip line in
  if _exit_requested age then Ok CancelRequested
  else if Str.isdigit age then
    match Str.int age with
    | None => Raise ValueError
    | Some n =>
        if (0 <=? n) && (n <=? 120) then
          match Str.int age with
          | None => Raise ValueError
          | Some m => Ok (Accepted (VInt m))
          end
        else Ok Retry
    end
  else Ok Retry.

Definition firstName_attempt (line : string) : Res ValidationOutcome :=
  let fName := Str.strip line in
  if _exit_requested fName then Ok CancelRequested
  else if fullmatch name_pat fName then Ok (Accepted (VStr fName))
  else Ok Retry.

Definition lastName_attempt (line : string) : Res ValidationOutcome :=
  let lName := Str.strip line in
  if _exit_requested lName then Ok CancelRequested
  else if fullmatch name_pat lName then Ok (Accepted (VStr lName))
  else Ok Retry.

Definition countryOfCitizenship_attempt (line : string) : Res ValidationOutcome :=
  let ans := Str.strip line in
  if _exit_requested ans then Ok CancelRequested
  else match _yes_no ans with
       | Some yn => Ok (Accepted (VBool yn))
       | None => Ok Retry
       end.

Definition zipCode_attempt (line : string) : Res ValidationOutcome :=
  let zip_code := Str.strip line in
  if _exit_requested zip_code then Ok CancelRequested
  else if fullmatch zip_pat zip_code then Ok (Accepted (VStr zip_code))
  else Ok Retry.

Definition stateOfResidenceHM : gmap string string :=
  list_to_map
    [("Alabama", "AL");
     ("Alaska", "AK");
     ("Arizona", "AZ");
     ("Arkansas", "AR");
     ("California", "CA");
     ("Colorado", "CO");
     ("Connecticut", "CT");
     ("Delaware", "DE");
     ("Florida", "FL");
     ("Georgia", "GA");
     ("Hawaii", "HI");
     ("Idaho", "ID");
     ("Illinois", "IL");
     ("Indiana", "IN");
     ("Iowa", "IA");
     ("Kansas", "KS");
     ("Kentucky", "KY");
     ("Louisiana", "LA");
     ("Maine", "ME");
     ("Maryland", "MD");
     ("Massachusetts", "MA");
     ("Michigan", "MI");
     ("Minnesota", "MN");
     ("Mississippi", "MS");
     ("Missouri", "MO");
     ("Montana", "MT");
     ("Nebraska", "NE");
     ("Nevada", "NV");
     ("New Hampshire", "NH");
     ("New Jersey", "NJ");
     ("New Mexico", "NM");
     ("New York", "NY");
     ("North Carolina", "NC");
     ("North Dakota", "ND");
     ("Ohio", "OH");
     ("Oklahoma", "OK");
     ("Oregon", "OR");
     ("Pennsylvania", "PA");
     ("Rhode Island", "RI");
     ("South Carolina", "SC");
     ("South Dakota", "SD");
     ("Tennessee", "TN");
     ("Texas", "TX");
     ("Utah", "UT");
     ("Vermont", "VT");
     ("Virginia", "VA");
     ("Washington", "WA");
     ("West Virginia", "WV");
     ("Wisconsin", "WI");
     ("Wyoming", "WY");
     ("District of Columbia", "DC");
     ("American Samoa", "AS");
     ("Guam", "GU");
     ("Northern Mariana Islands", "MP");
     ("Puerto Rico", "PR");
     ("United States Minor Outlying Islands", "UM");
     ("Virgin Islands, U.S.", "VI")].

(** [d.values()] *)
Definition values (d : gmap string string) : list string := (map_to_list d).*2.

Definition stateOfResidence_attempt (line : string) : Res ValidationOutcome :=
  let state := Str.upper (Str.strip line) in
  if _exit_requested state then Ok CancelRequested
  else if (Str.len state =? 2) && bool_decide (state ∈ values stateOfResidenceHM)
       then Ok (Accepted (VStr state))
  else Ok Retry.

(** The [while True:] loop around a pass: read a line, return on [Accepted]
    or [CancelRequested] ([None]), go round again on [Retry]. *)
Fixpoint prompt_loop (attempt : string -> Res ValidationOutcome)
    (inp : list string) : Res (option value) * list string :=
  match inp with
  | [] => (Raise EOFError, [])
  | line :: rest =>
      match attempt line with
      | Ok (Accepted v) => (Ok (Some v), rest)
      | Ok CancelRequested => (Ok None, rest)
      | Ok Retry => prompt_loop attempt rest
      | Raise e => (Raise e, rest)
      end
  end.

Definition isValidAge : Reader (option value) := prompt_loop isValidAge_attempt.
Definition firstName : Reader (option value) := prompt_loop firstName_attempt.
Definition lastName : Reader (option value) := prompt_loop lastName_attempt.
Definition countryOfCitizenship : Reader (option value) :=
  prompt_loop countryOfCitizenship_attempt.
Definition zipCode : Reader (option value) := prompt_loop zipCode_attempt.
Definition stateOfResidence : Reader (option value) :=
  prompt_loop stateOfResidence_attempt.

(** [_ask_continue]: the same loop shape, but no exit test. *)
Fixpoint _ask_continue (inp : list string) : Res bool * list string :=
  match inp with
  | [] => (Raise EOFError, [])
  | line :: rest =>
      let ans := Str.strip line in
      match _yes_no ans with
      | Some yn => (Ok yn, rest)
      | None => _ask_continue rest
      end
  end.

Definition initial_message : string :=
  "Thanks for trying the Voter Registration Application. Goodbye!".

Definition _continue_or_raise (initial : bool) : Reader unit := fun inp =>
  match _ask_continue inp with
  | (Ok true, rest) => (Ok tt, rest)
  | (Ok false, rest) =>
      let msg := if initial then initial_message else default_message in
      (Raise (CancelRegistration msg), rest)
  | (Raise e, rest) => (Raise e, rest)
  end.

Definition _require (getter : Reader (option value)) : Reader value := fun inp =>
  match getter inp with
  | (Ok (Some val), rest) => (Ok val, rest)
  | (Ok None, rest) => (Raise (CancelRegistration default_message), rest)
  | (Raise e, rest) => (Raise e, rest)
  end.

(** ** [main] *)

(** The state of a run: what is left of the input, and the local [results]. *)
Record State := mkState { stdin : list string; results : gmap string value }.

Definition M (A : Type) : Type := State -> Res A * State.

Definition ret {A} (a : A) : M A := fun st => (Ok a, st).

Definition bind {A B} (m : M A) (k : A -> M B) : M B := fun st =>
  match m st with
  | (Ok a, st') => k a st'
  | (Raise e, st') => (Raise e, st')
  end.

Notation "x <- m ;; k" := (bind m (fun x => k))
  (at level 100, m at next level, right associativity).
Notation "m ;;; k" := (bind m (fun _ => k))
  (at level 100, right associativity).

Definition read {A} (f : Reader A) : M A := fun st =>
  let '(r, rest) := f (stdin st) in (r, mkState rest (results st)).

Definition lift {A} (r : Res A) : M A := fun st => (r, st).

Definition get_results : M (gmap string value) := fun st => (Ok (results st), st).

Definition set_results (r : gmap string value) : M unit := fun st =>
  (Ok tt, mkState (stdin st) r).

(** [value < 18] for the values at hand; a [bool] compares as 0 or 1. *)
Definition lt_18 (v : value) : Res bool :=
  match v with
  | VInt n => Ok (n <? 18)
  | VBool b => Ok (Z.b2z b <? 18)
  | VStr _ => Raise TypeError
  end.

(** [not value] *)
Definition not_ (v : value) : bool :=
  match v with
  | VBool b => negb b
  | VInt n => n =? 0
  | VStr s => Str.is_empty s
  end.

Definition guard_message : string :=
  "Thanks for trying the Voter Registration Application.".

Definition _age_check (v : value) : Res unit :=
  match lt_18 v with
  | Ok true => Raise (CancelRegistration guard_message)
  | Ok false => Ok tt
  | Raise e => Raise e
  end.

Definition _citizen_check (v : value) : Res unit :=
  if not_ v then Raise (CancelRegistration guard_message) else Ok tt.

Definition Step : Type :=
  string * Reader (option value) * option (value -> Res unit).

Definition steps : list Step :=
  [ ("first", firstName, None);
    ("last", lastName, None);
    ("age", isValidAge, Some _age_check);
    ("citizen", countryOfCitizenship, Some _citizen_check);
    ("state", stateOfResidence, None);
    ("zip", zipCode, None) ].

(** The body of [for key, getter, post_check in steps:]. *)
Definition step_body (s : Step) : M unit :=
  let '(key, getter, post_check) := s in
  read (_continue_or_raise false) ;;;
  value <- read (_require getter) ;;
  match post_check with
  | Some check => lift (check value)
  | None => ret tt
  end ;;;
  res <- get_results ;;
  set_results (<[key := value]> res).

Fixpoint for_steps (ss : list Step) : M unit :=
  match ss with
  | [] => ret tt
  | s :: ss' => step_body s ;;; for_steps ss'
  end.

(** [results[key]] *)
Definition getitem (res : gmap string value) (key : string) : Res value :=
  match res !! key with
  | Some v => Ok v
  | None => Raise KeyError
  end.

(** How an f-string renders a value. *)
Definition format (v : value) : string :=
  match v with
  | VStr s => s
  | VInt n => Str.str n
  | VBool true => "True"
  | VBool false => "False"
  end.

(** The lines of the success summary (between the two fixed sentences). *)
Definition summary (res : gmap string value) : Res (list string) :=
  match getitem res "first", getitem res "last", getitem res "age",
        getitem res "state", getitem res "zip" with
  | Ok f, Ok l, Ok a, Ok s, Ok z =>
      Ok [ "Name (first last): " ++ format f ++ " " ++ format l;
           "Age: " ++ format a;
           "U.S. Citizen: Yes";
           "State: " ++ format s;
           "Zipcode: " ++ format z ]
  | _, _, _, _, _ => Raise KeyError
  end.

(** The [try:] block. *)
Definition main_try : M (gmap string value) :=
  read (_continue_or_raise true) ;;;
  set_results ∅ ;;;
  for_steps steps ;;;
  res <- get_results ;;
  lift (summary res) ;;;
  ret res.

(** [main()]: the [try] block and its [except CancelRegistration] handler. *)
Definition main : M Outcome := fun st =>
  match main_try st with
  | (Ok res, st') => (Ok (Completed res), st')
  | (Raise (CancelRegistration message), st') => (Ok (Cancelled message), st')
  | (Raise e, st') => (Raise e, st')
  end.

(** A run of the program on a script: [main()] in a fresh process. *)
Definition run (script : list string) : Res Outcome :=
  fst (main (mkState script ∅)).

(** ** Vocabulary of the specification *)

(** The six steps by their validators: the key, one pass of the prompting
    loop, and the guard. [steps] is this table with each pass wrapped in its
    loop. *)
Definition validators
  : list (string * (string -> Res ValidationOutcome) * option (value -> Res unit)) :=
  [ ("first", firstName_attempt, None);
    ("last", lastName_attempt, None);
    ("age", isValidAge_attempt, Some _age_check);
    ("citizen", countryOfCitizenship_attempt, Some _citizen_check);
    ("state", stateOfResidence_attempt, None);
    ("zip", zipCode_attempt, None) ].

(** A table of validators as the [steps] list that [main] builds from it. *)
Definition steps_of
    (vs : list (string * (string -> Res ValidationOutcome) * option (value -> Res unit)))
  : list Step :=
  map (fun '(key, attempt, guard) => (key, prompt_loop attempt, guard)) vs.

(** The trimmed, case-folded input is a cancellation token. *)
Definition cancel_token (raw : string) : Prop :=
  Str.lower (Str.strip raw) = "exit" \/ Str.lower (Str.strip raw) = "quit".

(** The trimmed, case-folded input answers the continuation question. *)
Definition says (yn : bool) (raw : string) : Prop :=
  if yn
  then Str.lower (Str.strip raw) = "y" \/ Str.lower (Str.strip raw) = "yes"
  else Str.lower (Str.strip raw) = "n" \/ Str.lower (Str.strip raw) = "no".

Definition no_answer (raw : string) : Prop := ~ says true raw /\ ~ says false raw.

(** The continuation question, asked on [script], is answered [yn] after
    any number of lines that are no answer; [rest] is what follows. *)
Definition answered (yn : bool) (script rest : list string) : Prop :=
  exists (retries : list string) line,
    script = (retries ++ line :: rest)%list
    /\ Forall no_answer retries /\ says yn line.

(** A validator, prompting on [script], returns [out] for some line after
    returning [Retry] for every line before it; [rest] is what follows. *)
Definition settles (attempt : string -> Res ValidationOutcome)
    (script : list string) (out : Res ValidationOutcome) (rest : list string) : Prop :=
  exists (retries : list string) line,
    script = (retries ++ line :: rest)%list
    /\ Forall (fun l => attempt l = Ok Retry) retries
    /\ attempt line = out.

Definition passes (guard : option (value -> Res unit)) (v : value) : Prop :=
  match guard with
  | Some check => check v = Ok tt
  | None => True
  end.

(** Every step of [vs], in order, was confirmed, had its validator return
    [Accepted] and its guard pass; the run went from [script] and [res] to
    [rest] and [res']. *)
Fixpoint completes
    (vs : list (string * (string -> Res ValidationOutcome) * option (value -> Res unit)))
    (script : list string) (res : gmap string value)
    (rest : list string) (res' : gmap string value) : Prop :=
  match vs with
  | [] => script = rest /\ res = res'
  | (key, attempt, guard) :: vs' =>
      exists i1 i2 v,
        answered true script i1
        /\ settles attempt i1 (Ok (Accepted v)) i2
        /\ passes guard v
        /\ completes vs' i2 (<[key := v]> res) rest res'
  end.

(** [n] decimal digits. *)
Definition digits (n : nat) (s : string) : Prop :=
  String.length s = n /\ Str.forall_chars Str.isdecimal_char s = true.

(** Exactly 5 digits, or 5 digits, a hyphen and 4 digits. *)
Inductive zip_shape : string -> Prop :=
| zip5 a : digits 5 a -> zip_shape a
| zip9 a b : digits 5 a -> digits 4 b -> zip_shape (a ++ "-" ++ b).

(** One character removed from, or added to, a segment. *)
Inductive edit1 : string -> string -> Prop :=
| edit_remove u c v : edit1 (u ++ String c v) (u ++ v)
| edit_add u c v : edit1 (u ++ v) (u ++ String c v).

(** A valid ZIP with one of its digit segments edited. *)
Inductive zip_mutant : string -> Prop :=
| mutant5 a a' : digits 5 a -> edit1 a a' -> zip_mutant a'
| mutant9_l a a' b :
    digits 5 a -> digits 4 b -> edit1 a a' -> zip_mutant (a' ++ "-" ++ b)
| mutant9_r a b b' :
    digits 5 a -> digits 4 b -> edit1 b b' -> zip_mutant (a ++ "-" ++ b').

(** The trimmed input is not a run of the digits 0-9. *)
Definition non_numeric (raw : string) : Prop :=
  Str.is_empty (Str.strip raw) = true
  \/ Str.forall_chars Str.isdecimal_char (Str.strip raw) = false.

(** Three of the digit characters that are no decimal digits: the
    superscripts two, three and one. [isdigit] accepts them, [int] does
    not. *)
Definition superscript_char (c : ascii) : bool :=
  (Str.ord c =? 178)%N || (Str.ord c =? 179)%N || (Str.ord c =? 185)%N.

Definition superscript_free (raw : string) : Prop :=
  Str.forall_chars (fun c => negb (superscript_char c)) raw = true.

(** The number that a run of the digits 0-9 denotes. *)
Fixpoint value_of (acc : Z) (s : string) : Z :=
  match s with
  | "" => acc
  | String c s' => value_of (10 * acc + (Z.of_N (Str.ord c) - 48)) s'
  end.

Definition decimal_value (s : string) : Z := value_of 0 s.

(** [c * n] for a one-character string: the character [n] times. *)
Fixpoint times (c : ascii) (n : nat) : string :=
  match n with
  | O => ""
  | S n' => String c (times c n')
  end.

(** ['0' * 4300] *)
Definition many_zeros : string := times "0" 4300.

(** The line is one that [isValidAge] takes for a number and [int] does
    not: its trimmed text passes [str.isdigit], and [int] rejects it. *)
Definition int_fails (raw : string) : Prop :=
  Str.isdigit (Str.strip raw) = true /\ Str.int (Str.strip raw) = None.

(** The line is not of that kind. *)
Definition convertible (raw : string) : Prop := ~ int_fails raw.

(** A validator raises nothing but the [ValueError] of [int] on a line that
    passed [isdigit], and what it accepts its guard either passes or vetoes
    with [guard_message]. *)
Definition well_behaved
    (x : string * (string -> Res ValidationOutcome) * option (value -> Res unit))
  : Prop :=
  let '(_, attempt, guard) := x in
  (forall l e, attempt l = Raise e -> e = ValueError /\ int_fails l)
  /\ (forall l v, attempt l = Ok (Accepted v) ->
      match guard with
      | None => True
      | Some check =>
          check v = Ok tt \/ check v = Raise (CancelRegistration guard_message)
      end).

(** Scenario A: each value entered at its own prompt, the continuation
    question answered "yes" at the start and again before every step. *)
Definition script_A : list string :=
  ["yes"; "yes"; "Ann"; "yes"; "Lee"; "yes"; "25"; "yes"; "yes";
   "yes"; "MD"; "yes"; "21201"].

(** The record of scenario A. *)
Definition record_A : gmap string value :=
  {[ "first" := VStr "Ann"; "last" := VStr "Lee"; "age" := VInt 25;
     "citizen" := VBool true; "state" := VStr "MD"; "zip" := VStr "21201" ]}.

(** ** Vocabulary for the further properties *)

(** An ASCII letter. *)
Definition is_letter (c : ascii) : bool :=
  Str.between 65 90 (Str.ord c) || Str.between 97 122 (Str.ord c).

(** What a name may continue with: a letter, a space, an apostrophe or a
    hyphen. *)
Definition name_char (c : ascii) : bool :=
  is_letter c || Ascii.eqb c " " || Ascii.eqb c "'" || Ascii.eqb c "-".

(** A letter followed by any number of name characters. *)
Definition name_shape (s : string) : Prop :=
  exists c t,
    s = String c t /\ is_letter c = true /\ Str.forall_chars name_char t = true.

(** The keys of the six steps, in step order. *)
Definition keys : list string :=
  ["first"; "last"; "age"; "citizen"; "state"; "zip"].

(** An ASCII capital. *)
Definition is_capital (c : ascii) : bool := Str.between 65 90 (Str.ord c).

(** [d.keys()] *)
Definition keys_of (d : gmap string string) : list string := (map_to_list d).*1.

(** Tests on what a validator returned. *)
Definition accepted_as (s : string) (r : Res ValidationOutcome) : bool :=
  match r with
  | Ok (Accepted (VStr t)) => String.eqb t s
  | _ => false
  end.

Definition is_retry (r : Res ValidationOutcome) : bool :=
  match r with
  | Ok Retry => true
  | _ => false
  end.

(** * The menu program

    The first program of the file (lines 1-200) has its own way of leaving:
    [sys.exit()], which raises [SystemExit]. It gets a module of its own,
    with its own exceptions. *)

Module Menu.

Inductive exn :=
| SystemExit
| EOFError
| ValueError (message : string)
| IndexError.

Inductive Res (A : Type) :=
| Ok (a : A)
| Raise (e : exn).
Arguments Ok {A} a.
Arguments Raise {A} e.

(** What [_raw] does with the line it read: [sys.exit()] when the line, in
    lower case but not trimmed, is "q", "quit" or "exit". *)
Definition _raw_value (value : string) : Res string :=
  if bool_decide (Str.lower value ∈ ["q"; "quit"; "exit"]) then Raise SystemExit
  else Ok value.

(** [_raw(prompt)] *)
Definition _raw (inp : list string) : Res string * list string :=
  match inp with
  | [] => (Raise EOFError, [])
  | value :: rest => (_raw_value value, rest)
  end.

(** [_yn(prompt)]: [_raw] inside [while True:]. *)
Fixpoint _yn (inp : list string) : Res bool * list string :=
  match inp with
  | [] => (Raise EOFError, [])
  | value :: rest =>
      match _raw_value value with
      | Raise e => (Raise e, rest)
      | Ok text =>
          let val := Str.lower (Str.strip text) in
          if bool_decide (val ∈ ["y"; "n"]) then (Ok (String.eqb val "y"), rest)
          else _yn rest
      end
  end.

Section Num.

(** [caster] is [float] or [int]; [None] stands for its [ValueError].
    [ltb] is [<] on the numbers it returns. *)
Context {A : Type} (caster : string -> option A) (ltb : A -> A -> bool).

(** [_num(prompt, caster, min_value)]: the [ValueError] of the caster is
    caught, [SystemExit] and [EOFError] of [_raw] are not. *)
Fixpoint _num (min_value : option A) (inp : list string) : Res A * list string :=
  match inp with
  | [] => (Raise EOFError, [])
  | value :: rest =>
      match _raw_value value with
      | Raise e => (Raise e, rest)
      | Ok text =>
          match caster text with
          | None => _num min_value rest
          | Some val =>
              match min_value with
              | Some m => if ltb val m then _num min_value rest else (Ok val, rest)
              | None => (Ok val, rest)
              end
          end
      end
  end.

End Num.

(** [_num(prompt, int, min_value)] *)
Definition _num_int : option Z -> list string -> Res Z * list string :=
  _num Str.int Z.ltb.

End Menu.

(** ** Vocabulary for the menu program *)

(** The line makes [_raw] leave the program. *)
Definition quits (value : string) : Prop :=
  Str.lower value = "q" \/ Str.lower value = "quit" \/ Str.lower value = "exit".

(** The line answers a y/n question of [_yn]. *)
Definition answers_yn (b : bool) (value : string) : Prop :=
  ~ quits value /\ Str.lower (Str.strip value) = (if b then "y" else "n").

(** The line does not quit and is no answer, so [_yn] asks again. *)
Definition asked_again (value : string) : Prop :=
  ~ quits value /\ Str.lower (Str.strip value) <> "y"
  /\ Str.lower (Str.strip value) <> "n".

(** ** The password generator *)

Module Generator.

Import Menu.

(** [string.ascii_lowercase], [ascii_uppercase], [digits], [punctuation] *)
Definition ascii_lowercase : string := "abcdefghijklmnopqrstuvwxyz".
Definition ascii_uppercase : string := "ABCDEFGHIJKLMNOPQRSTUVWXYZ".
Definition digits : string := "0123456789".
Definition punctuation : string :=
  String "!" (String "034" "#$%&'()*+,-./:;<=>?@[\]^_`{|}~").

(** The random source: the numbers the generator will hand out, in order.
    Whatever CPython's generator does, it answers the calls below with some
    sequence of numbers, and the properties hold for every sequence. *)
Definition rng : Type := nat -> nat.

(** [random._randbelow(n)]: the next number, brought below [n]. *)
Definition randbelow (n : nat) (g : rng) : nat * rng :=
  (Nat.modulo (g O) n, fun i => g (S i)).

(** [random.choice(seq)]; on an empty [seq] it raises [IndexError]. *)
Definition choice (seq : string) (g : rng) : Res ascii * rng :=
  let '(k, g') := randbelow (String.length seq) g in
  match String.get k seq with
  | Some c => (Ok c, g')
  | None => (Raise IndexError, g')
  end.

(** [x[i], x[j] = x[j], x[i]] *)
Definition swap (i j : nat) (x : list ascii) : list ascii :=
  match x !! i, x !! j with
  | Some a, Some b => <[j := a]> (<[i := b]> x)
  | _, _ => x
  end.

(** [random.shuffle(x)]:
    [for i in reversed(range(1, len(x))): j = randbelow(i + 1); swap]. *)
Fixpoint shuffle_from (i : nat) (x : list ascii) (g : rng) : list ascii * rng :=
  match i with
  | O => (x, g)
  | S i' =>
      let '(j, g') := randbelow (S i) g in
      shuffle_from i' (swap i j x) g'
  end.

Definition shuffle (x : list ascii) (g : rng) : list ascii * rng :=
  shuffle_from (List.length x - 1)%nat x g.

(** [password.append(random.choice(seq))] *)
Definition append_choice (seq : string) (st : Res (list ascii) * rng)
  : Res (list ascii) * rng :=
  match st with
  | (Ok password, g) =>
      match choice seq g with
      | (Ok c, g') => (Ok (password ++ [c])%list, g')
      | (Raise e, g') => (Raise e, g')
      end
  | (Raise e, g) => (Raise e, g)
  end.

(** [n] rounds of [while len(password) < length: password.append(...)]. *)
Fixpoint fill (n : nat) (all_chars : string) (st : Res (list ascii) * rng)
  : Res (list ascii) * rng :=
  match n with
  | O => st
  | S n' => fill n' all_chars (append_choice all_chars st)
  end.

Definition generate_password (length : Z)
    (use_upper use_lower use_digits use_special : bool) (g : rng)
  : Res string * rng :=
  if length <? 8 then
    (Raise (ValueError "Password length should be at least 8 characters."), g)
  else
    let lowercase := if use_lower then ascii_lowercase else "" in
    let uppercase := if use_upper then ascii_uppercase else "" in
    let digits' := if use_digits then digits else "" in
    let special := if use_special then punctuation else "" in
    if Str.is_empty lowercase && Str.is_empty uppercase
       && Str.is_empty digits' && Str.is_empty special
    then (Raise (ValueError "At least one character set must be selected."), g)
    else
      let all_chars := lowercase ++ uppercase ++ digits' ++ special in
      let st := (Ok [], g) in
      let st := if use_lower then append_choice ascii_lowercase st else st in
      let st := if use_upper then append_choice ascii_uppercase st else st in
      let st := if use_digits then append_choice digits st else st in
      let st := if use_special then append_choice punctuation st else st in
      match st with
      | (Raise e, g1) => (Raise e, g1)
      | (Ok password, g1) =>
          let n := Z.to_nat (length - Z.of_nat (List.length password)) in
          match fill n all_chars (Ok password, g1) with
          | (Raise e, g2) => (Raise e, g2)
          | (Ok password', g2) =>
              let '(shuffled, g3) := shuffle password' g2 in
              (Ok (string_of_list_ascii shuffled), g3)
          end
      end.

End Generator.

(** ** The handler of menu option (a) *)

Module Handlers.

Import Menu Generator.

(** The four questions of [_handle_password], in the order they are asked:
    upper case, lower case, digits, special characters. *)
Definition ask_sets (inp : list string)
  : Res (bool * bool * bool * bool) * list string :=
  match _yn inp with
  | (Raise e, rest) => (Raise e, rest)
  | (Ok use_upper, rest) =>
      match _yn rest with
      | (Raise e, rest) => (Raise e, rest)
      | (Ok use_lower, rest) =>
          match _yn rest with
          | (Raise e, rest) => (Raise e, rest)
          | (Ok use_digits, rest) =>
              match _yn rest with
              | (Raise e, rest) => (Raise e, rest)
              | (Ok use_special, rest) =>
                  (Ok (use_upper, use_lower, use_digits, use_special), rest)
              end
          end
      end
  end.

(** [while not (use_upper or use_lower or use_digits or use_special):] with
    the four questions as its body. [fuel] bounds the number of rounds; [None]
    is a loop that was cut short by it. *)
Fixpoint select_sets (fuel : nat) (sets : bool * bool * bool * bool)
    (inp : list string)
  : option (Res (bool * bool * bool * bool) * list string) :=
  let '(use_upper, use_lower, use_digits, use_special) := sets in
  if negb (use_upper || use_lower || use_digits || use_special) then
    match fuel with
    | O => None
    | S fuel' =>
        match ask_sets inp with
        | (Raise e, rest) => Some (Raise e, rest)
        | (Ok sets', rest) => select_sets fuel' sets' rest
        end
    end
  else Some (Ok sets, inp).

(** [_handle_password(password_gen)]; the result is the password it prints.
    Every round of the loop reads at least four lines, so one round more than
    there are lines left is all the loop can ever make. *)
Definition _handle_password (g : rng) (inp : list string)
  : option (Res string * list string * rng) :=
  match _num_int (Some 8) inp with
  | (Raise e, rest) => Some (Raise e, rest, g)
  | (Ok length, rest) =>
      match ask_sets rest with
      | (Raise e, rest) => Some (Raise e, rest, g)
      | (Ok sets, rest) =>
          match select_sets (S (List.length rest)) sets rest with
          | None => None
          | Some (Raise e, rest) => Some (Raise e, rest, g)
          | Some (Ok (use_upper, use_lower, use_digits, use_special), rest) =>
              let '(printed, g') :=
                generate_password length use_upper use_lower use_digits
                  use_special g in
              Some (printed, rest, g')
          end
      end
  end.

End Handlers.

(** ** Days until July 4, 2025 *)

Module Days.

(** A naive [datetime], as [datetime.now()] returns it. *)
Record datetime := mkDatetime {
  year : Z; month : Z; day : Z;
  hour : Z; minute : Z; second : Z; microsecond : Z
}.

(** [timedelta]: what its three attributes hold. *)
Record timedelta := mkTimedelta {
  days : Z; seconds : Z; microseconds : Z
}.

(** The calendar of the [datetime] module. *)
Definition _is_leap (y : Z) : bool :=
  (y mod 4 =? 0) && (negb (y mod 100 =? 0) || (y mod 400 =? 0)).

Definition _days_before_year (y : Z) : Z :=
  let y := y - 1 in y * 365 + y / 4 - y / 100 + y / 400.

Definition _DAYS_IN_MONTH : list Z :=
  [-1; 31; 28; 31; 30; 31; 30; 31; 31; 30; 31; 30; 31].

Definition _DAYS_BEFORE_MONTH : list Z :=
  [-1; 0; 31; 59; 90; 120; 151; 181; 212; 243; 273; 304; 334].

Definition _days_in_month (y m : Z) : Z :=
  if (m =? 2) && _is_leap y then 29 else nth (Z.to_nat m) _DAYS_IN_MONTH 0.

Definition _days_before_month (y m : Z) : Z :=
  nth (Z.to_nat m) _DAYS_BEFORE_MONTH 0
  + (if (m >? 2) && _is_leap y then 1 else 0).

Definition _ymd2ord (y m d : Z) : Z :=
  _days_before_year y + _days_before_month y m + d.

Definition toordinal (t : datetime) : Z := _ymd2ord (year t) (month t) (day t).

(** The fields a [datetime] can hold: what its constructor checks. *)
Definition valid (t : datetime) : bool :=
  (1 <=? year t) && (year t <=? 9999)
  && (1 <=? month t) && (month t <=? 12)
  && (1 <=? day t) && (day t <=? _days_in_month (year t) (month t))
  && (0 <=? hour t) && (hour t <? 24)
  && (0 <=? minute t) && (minute t <? 60)
  && (0 <=? second t) && (second t <? 60)
  && (0 <=? microsecond t) && (microsecond t <? 1000000).

(** [timedelta(days, seconds, microseconds)] on integers: microseconds are
    carried into seconds and seconds into days, both with floor division. *)
Definition new_timedelta (d s us : Z) : timedelta :=
  let s := s + us / 1000000 in
  let us := us mod 1000000 in
  let d := d + s / 86400 in
  let s := s mod 86400 in
  mkTimedelta d s us.

(** [a - b] on two naive [datetime]s. *)
Definition sub (a b : datetime) : timedelta :=
  let secs1 := second a + minute a * 60 + hour a * 3600 in
  let secs2 := second b + minute b * 60 + hour b * 3600 in
  new_timedelta (toordinal a - toordinal b) (secs1 - secs2)
    (microsecond a - microsecond b).

(** [days_until_july_four()], with what [datetime.now()] returned as [now]. *)
Definition days_until_july_four (now : datetime) : Z :=
  let today := now in
  let target := mkDatetime 2025 7 4 0 0 0 0 in
  let days := days (sub target today) in
  if days >? 0 then days else 0.

End Days.

(** ** Vocabulary for the days of option (c) *)

(** The time of day is midnight sharp. *)
Definition at_midnight (t : Days.datetime) : bool :=
  (Days.hour t =? 0) && (Days.minute t =? 0) && (Days.second t =? 0)
  && (Days.microsecond t =? 0).

(** Calendar days from the date of [t] to July 4, 2025. *)
Definition calendar_days (t : Days.datetime) : Z :=
  Days.toordinal (Days.mkDatetime 2025 7 4 0 0 0 0) - Days.toordinal t.

(** [a < b] on two [datetime]s: the fields compared in order. *)
Definition fields (t : Days.datetime) : list Z :=
  [Days.year t; Days.month t; Days.day t; Days.hour t; Days.minute t;
   Days.second t; Days.microsecond t].

Fixpoint lex_lt (a b : list Z) : bool :=
  match a, b with
  | x :: a', y :: b' => (x <? y) || ((x =? y) && lex_lt a' b')
  | [], _ :: _ => true
  | _, _ => false
  end.

Definition earlier (a b : Days.datetime) : bool := lex_lt (fields a) (fields b).

(** * Properties *)

(** ** The model on concrete inputs *)

Example strip_examples :
  Str.strip "  Ann Lee   " = "Ann Lee"
  /\ Str.strip (String "160" (String "009" "MD")) = "MD"
  /\ Str.strip "   " = "".
Proof. repeat split. Qed.

Example case_examples :
  Str.upper "md" = "MD" /\ Str.lower "ExIt" = "exit"
  /\ Str.upper (String "223" "") = "SS".
Proof. repeat split. Qed.

Example isdigit_examples :
  Str.isdigit "007" = true /\ Str.isdigit "" = false
  /\ Str.isdigit "-5" = false /\ Str.isdigit (String "178" "") = true.
Proof. repeat split. Qed.

Example int_examples :
  Str.int " -1_000 " = Some (-1000) /\ Str.int "1__0" = None
  /\ Str.int "007" = Some 7 /\ Str.int "" = None
  /\ Str.int (String "178" "") = None
  /\ Str.int (String "160" "5") = Some 5 /\ Str.int (String "028" "5") = None
  /\ Str.int "- 5" = None /\ Str.int "+5" = Some 5.
Proof. repeat split. Qed.

Example str_examples :
  Str.str 120 = "120" /\ Str.str (-5) = "-5" /\ Str.str 0 = "0".
Proof. repeat split. Qed.

Example name_pat_examples :
  fullmatch name_pat "Ann" = true
  /\ fullmatch name_pat "O'Neil-Smith jr" = true
  /\ fullmatch name_pat "" = false
  /\ fullmatch name_pat "-Ann" = false
  /\ fullmatch name_pat "Ann3" = false.
Proof. repeat split. Qed.

Example zip_pat_examples :
  fullmatch zip_pat "21201" = true
  /\ fullmatch zip_pat "21201-1234" = true
  /\ fullmatch zip_pat "2120" = false
  /\ fullmatch zip_pat "21201-" = false
  /\ fullmatch zip_pat "21201-12345" = false.
Proof. repeat split. Qed.

Example state_examples :
  stateOfResidence_attempt " md " = Ok (Accepted (VStr "MD"))
  /\ stateOfResidence_attempt "XX" = Ok Retry
  /\ stateOfResidence_attempt "Maryland" = Ok Retry
  /\ stateOfResidence_attempt "quit" = Ok CancelRequested.
Proof. repeat split. Qed.

(** Scenarios B, C and D of the specification, with the continuation
    question answered before every step. *)
Example scenario_B :
  run ["yes"; "yes"; "exit"] = Ok (Cancelled "Registration canceled. Goodbye!").
Proof. reflexivity. Qed.

Example scenario_C :
  main (mkState ["yes"; "yes"; "Ann"; "yes"; "Lee"; "yes"; "16"] ∅)
  = (Ok (Cancelled "Thanks for trying the Voter Registration Application."),
     mkState [] {[ "first" := VStr "Ann"; "last" := VStr "Lee" ]}).
Proof. vm_compute. reflexivity. Qed.

Example scenario_D :
  run ["no"]
  = Ok (Cancelled "Thanks for trying the Voter Registration Application. Goodbye!").
Proof. reflexivity. Qed.

(** ** Facts about the [str] methods *)

Ltac by_cases_on_char c :=
  destruct c as [[] [] [] [] [] [] [] []]; vm_compute;
  try reflexivity; try discriminate; try (intros; discriminate);
  try (intros; reflexivity).

Section StrFacts.

Import Str.

Lemma lstrip_shape s :
  lstrip s = "" \/ exists c t, lstrip s = String c t /\ isspace_char c = false.
Proof.
  induction s as [|c s IH]; simpl; [now left|].
  destruct (isspace_char c) eqn:E; [exact IH|].
  right. now exists c, s.
Qed.

Lemma rstrip_rstrip s : rstrip (rstrip s) = rstrip s.
Proof.
  induction s as [|c s IH]; simpl; [reflexivity|].
  destruct (isspace_char c && is_empty (rstrip s)) eqn:E; simpl; [reflexivity|].
  now rewrite IH, E.
Qed.

Lemma strip_strip s : strip (strip s) = strip s.
Proof.
  unfold strip.
  destruct (lstrip_shape s) as [->|(c & t & -> & Hc)]; [reflexivity|].
  cbn [rstrip]. rewrite Hc. cbn [andb lstrip]. rewrite Hc.
  cbn [rstrip]. rewrite Hc, rstrip_rstrip. reflexivity.
Qed.

(** Text without any whitespace in it is left alone by [strip]. *)
Lemma rstrip_no_space s :
  forall_chars (fun c => negb (isspace_char c)) s = true -> rstrip s = s.
Proof.
  induction s as [|c s IH]; simpl; [reflexivity|].
  intros [Hc Hs]%andb_prop. rewrite (IH Hs).
  apply negb_true_iff in Hc. now rewrite Hc.
Qed.

Lemma strip_no_space s :
  forall_chars (fun c => negb (isspace_char c)) s = true -> strip s = s.
Proof.
  intros H. unfold strip.
  assert (lstrip s = s) as ->.
  { destruct s as [|c s]; simpl in *; [reflexivity|].
    apply andb_prop in H as [Hc _]. apply negb_true_iff in Hc. now rewrite Hc. }
  now apply rstrip_no_space.
Qed.

Lemma forall_chars_impl (p q : ascii -> bool) s :
  (forall c, p c = true -> q c = true) ->
  forall_chars p s = true -> forall_chars q s = true.
Proof.
  intros Hpq. induction s as [|c s IH]; simpl; [reflexivity|].
  intros [Hc Hs]%andb_prop. now rewrite (Hpq c Hc), (IH Hs).
Qed.

Lemma forall_chars_app p s t :
  forall_chars p (s ++ t) = forall_chars p s && forall_chars p t.
Proof.
  induction s as [|c s IH]; simpl; [reflexivity|].
  now rewrite IH, andb_assoc.
Qed.

Lemma decimal_not_space c : isdecimal_char c = true -> negb (isspace_char c) = true.
Proof. by_cases_on_char c. Qed.

Lemma decimal_is_digit c : isdecimal_char c = true -> isdigit_char c = true.
Proof. by_cases_on_char c. Qed.

Lemma decimal_not_sign c :
  isdecimal_char c = true -> Ascii.eqb c "-" || Ascii.eqb c "+" = false.
Proof. by_cases_on_char c. Qed.

Lemma decimal_lower c : isdecimal_char c = true -> lower_char c = c.
Proof. by_cases_on_char c. Qed.

(** What [int] skips, [strip] removes too. *)
Lemma int_space_is_space c : int_space_char c = true -> isspace_char c = true.
Proof. by_cases_on_char c. Qed.

Lemma int_strip_no_space s :
  forall_chars (fun c => negb (isspace_char c)) s = true ->
  int_rstrip (int_lstrip s) = s.
Proof.
  intros H.
  assert (N : forall c, negb (isspace_char c) = true -> int_space_char c = false).
  { intros c Hc. destruct (int_space_char c) eqn:E; [|reflexivity].
    apply int_space_is_space in E. now rewrite E in Hc. }
  assert (int_lstrip s = s) as ->.
  { destruct s as [|c s]; simpl in *; [reflexivity|].
    apply andb_prop in H as [Hc _]. now rewrite (N c Hc). }
  induction s as [|c s IH]; simpl; [reflexivity|].
  simpl in H. apply andb_prop in H as [Hc Hs]. now rewrite (IH Hs), (N c Hc).
Qed.

(** A character that lowers to an ASCII letter is that letter in either
    case, and [upper] sends it to the capital. *)
Lemma upper_of_lowered c :
  between 97 122 (ord (lower_char c)) = true ->
  upper_char c = String (ascii_of_N (ord (lower_char c) - 32)) "".
Proof. by_cases_on_char c. Qed.

End StrFacts.

(** ** The derivative matcher decides [lang] *)

Section ReFacts.

Lemma append_empty_inv (s t : string) : s ++ t = "" -> s = "" /\ t = "".
Proof. destruct s; simpl; [now intros ->|discriminate]. Qed.

Lemma nullable_lang r : nullable r = true <-> lang r "".
Proof.
  split.
  - induction r; simpl; try discriminate; intros H.
    + constructor.
    + constructor.
    + apply andb_prop in H as [H1 H2].
      apply (L_seq r1 r2 "" ""); auto.
    + apply orb_prop in H as [H|H]; [apply L_alt_l|apply L_alt_r]; auto.
    + constructor.
  - induction r; simpl; intros H; inversion H; subst; try reflexivity.
    + match goal with E : _ ++ _ = "" |- _ => apply append_empty_inv in E as [-> ->] end.
      rewrite IHr1, IHr2; auto.
    + rewrite IHr1; auto.
    + rewrite IHr2; auto using orb_true_r.
Qed.

Lemma lang_star_cons r c s :
  lang (Star r) (String c s) ->
  exists s1 s2, s = s1 ++ s2 /\ lang r (String c s1) /\ lang (Star r) s2.
Proof.
  intros H. remember (Star r) as r' eqn:Er. remember (String c s) as w eqn:Ew.
  revert c s Ew. induction H; try discriminate; intros c0 s0 Ew.
  injection Er as ->.
  destruct s1 as [|d s1]; simpl in Ew.
  - now apply IHlang2.
  - injection Ew as -> <-. now exists s1, s2.
Qed.

Lemma lang_deriv c r s : lang (deriv c r) s <-> lang r (String c s).
Proof.
  revert s. induction r; intros s; simpl.
  - split; intros H; inversion H.
  - split; intros H; inversion H.
  - split; intros H; inversion H.
  - destruct (in_class items c) eqn:E; split; intros H; inversion H; subst.
    + now constructor.
    + constructor.
    + congruence.
  - split.
    + destruct (nullable r1) eqn:N; intros H; inversion H; subst.
      * match goal with H' : lang (Seq _ _) _ |- _ => inversion H'; subst end.
        apply (L_seq r1 r2 (String c s1) s2); [now apply IHr1|assumption].
      * apply (L_seq r1 r2 "" (String c s));
          [now apply nullable_lang|now apply IHr2].
      * apply (L_seq r1 r2 (String c s1) s2); [now apply IHr1|assumption].
    + intros H. inversion H as [| | |? ? s1 s2 H1 H2| | | |]; subst.
      match goal with E : s1 ++ s2 = String c s |- _ =>
        destruct s1 as [|d s1]; simpl in E;
        [subst s2|injection E as -> <-] end.
      * apply nullable_lang in H1. rewrite H1.
        apply L_alt_r. now apply IHr2.
      * assert (lang (Seq (deriv c r1) r2) (s1 ++ s2))
          by (constructor; [now apply IHr1|assumption]).
        destruct (nullable r1); [now apply L_alt_l|assumption].
  - split; intros H; inversion H; subst.
    + apply L_alt_l. now apply IHr1.
    + apply L_alt_r. now apply IHr2.
    + apply L_alt_l. now apply IHr1.
    + apply L_alt_r. now apply IHr2.
  - split.
    + intros H. inversion H; subst.
      apply (L_star_app r (String c s1) s2); [now apply IHr|assumption].
    + intros (s1 & s2 & -> & H1 & H2)%lang_star_cons.
      constructor; [now apply IHr|assumption].
Qed.

Theorem fullmatch_lang r s : fullmatch r s = true <-> lang r s.
Proof.
  revert r. induction s as [|c s IH]; intros r; simpl.
  - apply nullable_lang.
  - rewrite IH. apply lang_deriv.
Qed.

End ReFacts.

(** ** The prompting loops *)

Section Loops.

Lemma steps_validators : steps = steps_of validators.
Proof. reflexivity. Qed.

Lemma mem2 (v a b : string) :
  bool_decide (v ∈ ({[a; b]} : gset string)) = true <-> v = a \/ v = b.
Proof. rewrite bool_decide_eq_true. set_solver. Qed.

Lemma yes_no_spec raw yn :
  _yes_no (Str.strip raw) = Some yn <-> says yn raw.
Proof.
  unfold _yes_no, says. rewrite strip_strip.
  set (v := Str.lower (Str.strip raw)).
  destruct (bool_decide (v ∈ ({["y"; "yes"]} : gset string))) eqn:Y.
  - apply mem2 in Y. destruct yn; split; try tauto; try discriminate.
    intros [H|H]; destruct Y as [Y|Y]; congruence.
  - assert (~ (v = "y" \/ v = "yes")) by (rewrite <- mem2; congruence).
    destruct (bool_decide (v ∈ ({["n"; "no"]} : gset string))) eqn:N.
    + apply mem2 in N. destruct yn; split; try tauto; discriminate.
    + assert (~ (v = "n" \/ v = "no")) by (rewrite <- mem2; congruence).
      destruct yn; split; try tauto; discriminate.
Qed.

Lemma yes_no_none raw : _yes_no (Str.strip raw) = None <-> no_answer raw.
Proof.
  unfold no_answer. rewrite <- !yes_no_spec.
  destruct (_yes_no (Str.strip raw)) as [[]|];
    (split;
     [intros H; try discriminate; split; discriminate
     |intros [H1 H2]; try reflexivity; exfalso; auto]).
Qed.

Lemma ask_continue_answered script yn rest :
  _ask_continue script = (Ok yn, rest) <-> answered yn script rest.
Proof.
  unfold answered. split.
  - revert yn rest. induction script as [|line script IH]; simpl; intros yn rest H.
    + discriminate.
    + destruct (_yes_no (Str.strip line)) as [b|] eqn:E.
      * injection H as -> ->. exists [], line. repeat split; [constructor|].
        now apply yes_no_spec.
      * destruct (IH _ _ H) as (retries & l & -> & Hr & Hl).
        exists (line :: retries), l. repeat split; [|assumption].
        constructor; [now apply yes_no_none|assumption].
  - intros (retries & line & -> & Hr & Hl).
    induction Hr as [|l retries Hl' _ IH]; simpl.
    + apply yes_no_spec in Hl. now rewrite Hl.
    + apply yes_no_none in Hl'. now rewrite Hl'.
Qed.

Lemma ask_continue_raise script e rest :
  _ask_continue script = (Raise e, rest) -> e = EOFError /\ rest = [].
Proof.
  induction script as [|line script IH]; simpl.
  - intros [= <- <-]. now split.
  - destruct (_yes_no (Str.strip line)); [discriminate|exact IH].
Qed.

Lemma prompt_loop_settles attempt script rest out :
  out <> Ok Retry ->
  settles attempt script out rest ->
  prompt_loop attempt script =
    (match out with
     | Ok (Accepted v) => Ok (Some v)
     | Ok CancelRequested => Ok None
     | Ok Retry => Raise EOFError
     | Raise e => Raise e
     end, rest).
Proof.
  intros Hout (retries & line & -> & Hr & Hl).
  induction Hr as [|l retries Hl' _ IH]; simpl.
  - rewrite Hl. destruct out as [[]|]; congruence.
  - now rewrite Hl'.
Qed.

Lemma prompt_loop_inv attempt script r rest :
  prompt_loop attempt script = (r, rest) ->
  (r = Raise EOFError /\ rest = [] /\ Forall (fun l => attempt l = Ok Retry) script)
  \/ exists out, out <> Ok Retry /\ settles attempt script out rest
       /\ r = match out with
              | Ok (Accepted v) => Ok (Some v)
              | Ok CancelRequested => Ok None
              | Ok Retry => Raise EOFError
              | Raise e => Raise e
              end.
Proof.
  revert r rest. induction script as [|line script IH]; simpl; intros r rest H.
  - injection H as <- <-. left. repeat split. constructor.
  - destruct (attempt line) as [[v| |]|e] eqn:E.
    + injection H as <- <-. right. exists (Ok (Accepted v)).
      split; [discriminate|]. split; [|reflexivity]. now exists [], line.
    + destruct (IH _ _ H) as [(-> & -> & Hf)|(out & Ho & (retries & l & -> & Hr & Hl) & ->)].
      * left. repeat split. now constructor.
      * right. exists out. split; [assumption|]. split; [|reflexivity].
        exists (line :: retries), l. repeat split; [|assumption]. now constructor.
    + injection H as <- <-. right. exists (Ok CancelRequested).
      split; [discriminate|]. split; [|reflexivity]. now exists [], line.
    + injection H as <- <-. right. exists (Raise e).
      split; [discriminate|]. split; [|reflexivity]. now exists [], line.
Qed.

End Loops.

(** ** The step loop *)

Ltac unfold_m :=
  unfold step_body, bind, read, lift, ret, get_results, set_results,
    _continue_or_raise, _require; simpl.

Section Pipeline.

(** What one round of the [for] loop does, case by case. *)
Lemma step_body_eq key getter guard script res :
  step_body (key, getter, guard) (mkState script res) =
  match _ask_continue script with
  | (Ok true, i1) =>
      match getter i1 with
      | (Ok (Some v), i2) =>
          match match guard with Some check => check v | None => Ok tt end with
          | Ok _ => (Ok tt, mkState i2 (<[key := v]> res))
          | Raise e => (Raise e, mkState i2 res)
          end
      | (Ok None, i2) => (Raise (CancelRegistration default_message), mkState i2 res)
      | (Raise e, i2) => (Raise e, mkState i2 res)
      end
  | (Ok false, i1) => (Raise (CancelRegistration default_message), mkState i1 res)
  | (Raise e, i1) => (Raise e, mkState i1 res)
  end.
Proof.
  unfold_m.
  destruct (_ask_continue script) as [[[]|e] i1]; simpl; try reflexivity.
  destruct (getter i1) as [[[v|]|e] i2]; simpl; try reflexivity.
  destruct guard as [check|]; simpl; [|reflexivity].
  destruct (check v); reflexivity.
Qed.

Lemma for_steps_cons s ss st :
  for_steps (s :: ss) st =
  match step_body s st with
  | (Ok _, st') => for_steps ss st'
  | (Raise e, st') => (Raise e, st')
  end.
Proof. reflexivity. Qed.

Lemma for_steps_app ss1 ss2 st :
  for_steps (ss1 ++ ss2) st =
  match for_steps ss1 st with
  | (Ok _, st') => for_steps ss2 st'
  | (Raise e, st') => (Raise e, st')
  end.
Proof.
  revert st. induction ss1 as [|s ss1 IH]; intros st; [reflexivity|].
  rewrite <- app_comm_cons, !for_steps_cons.
  destruct (step_body s st) as [[[]|e] st']; [apply IH|reflexivity].
Qed.

Lemma passes_guard guard v :
  passes guard v ->
  match guard with Some check => check v | None => Ok tt end = Ok tt.
Proof. destruct guard; simpl; auto. Qed.

(** The loop finishes normally exactly on the scripts that [completes]
    describes. *)
Lemma for_steps_completes vs script res rest res' :
  for_steps (steps_of vs) (mkState script res) = (Ok tt, mkState rest res')
  <-> completes vs script res rest res'.
Proof.
  revert script res. induction vs as [|[[key attempt] guard] vs IH];
    intros script res; unfold steps_of; cbn [map completes].
  - simpl. unfold ret. split; [now intros [= -> ->]|now intros [-> ->]].
  - fold (steps_of vs). rewrite for_steps_cons, step_body_eq. split.
    + destruct (_ask_continue script) as [[[]|e] i1] eqn:A; try discriminate.
      destruct (prompt_loop attempt i1) as [[[v|]|e] i2] eqn:P; try discriminate.
      destruct (match guard with Some check => check v | None => Ok tt end)
        as [[]|e] eqn:G; try discriminate.
      intros H. exists i1, i2, v. split; [|split; [|split]].
      * now apply ask_continue_answered.
      * apply prompt_loop_inv in P
          as [(? & _)|(out & Ho & Hs & E)]; [discriminate|].
        destruct out as [[]|]; try discriminate; congruence.
      * destruct guard; simpl; [assumption|exact I].
      * now apply IH.
    + intros (i1 & i2 & v & A & S & G & C).
      apply ask_continue_answered in A. rewrite A.
      rewrite (prompt_loop_settles attempt i1 i2 (Ok (Accepted v)));
        [|discriminate|assumption].
      rewrite (passes_guard _ _ G). now apply IH.
Qed.

End Pipeline.

(** ** [int] and [str] on decimal text *)

Section Decimal.

Import Str.

Lemma uint_decimal d : forall_chars isdecimal_char (NilEmpty.string_of_uint d) = true.
Proof. induction d; simpl; auto. Qed.

Lemma uint_nonempty d : d <> Decimal.Nil -> is_empty (NilEmpty.string_of_uint d) = false.
Proof. destruct d; simpl; congruence. Qed.

Lemma int_digits_acc d acc :
  int_digits (NilEmpty.string_of_uint d) (Z.pos acc) true
  = Some (Z.pos (Pos.of_uint_acc d acc)).
Proof.
  revert acc. induction d; intros acc; cbn [NilEmpty.string_of_uint int_digits Pos.of_uint_acc];
    try reflexivity;
    match goal with
    | |- context [isdecimal_char ?c] =>
        change (isdecimal_char c) with true; cbv iota;
        let v := eval vm_compute in (digit_value c) in
        change (digit_value c) with v
    end;
    rewrite <- IHd; f_equal; lia.
Qed.

Lemma int_digits_uint d :
  int_digits (NilEmpty.string_of_uint d) 0 true = Some (Z.of_N (Pos.of_uint d)).
Proof.
  induction d; cbn [NilEmpty.string_of_uint int_digits Pos.of_uint];
    try reflexivity;
    match goal with
    | |- context [isdecimal_char ?c] =>
        change (isdecimal_char c) with true; cbv iota;
        let v := eval vm_compute in (digit_value c) in
        change (digit_value c) with v
    end;
    try (rewrite N2Z.inj_pos, <- int_digits_acc; f_equal; lia).
  exact IHd.
Qed.

Lemma int_digits_start t acc :
  forall_chars isdecimal_char t = true -> is_empty t = false ->
  int_digits t acc false = int_digits t acc true.
Proof.
  destruct t as [|c t]; simpl; [discriminate|].
  now intros [-> _]%andb_prop _.
Qed.

Lemma int_digits_total t acc :
  forall_chars isdecimal_char t = true ->
  exists n, int_digits t acc true = Some n.
Proof.
  revert acc. induction t as [|c t IH]; intros acc; simpl.
  - now exists acc.
  - intros [-> Ht]%andb_prop. now apply IH.
Qed.

(** On decimal text the limit counts every character. *)
Lemma count_digits_decimal t :
  forall_chars isdecimal_char t = true -> count_digits t = len t.
Proof.
  unfold len. induction t as [|c t IH]; [reflexivity|].
  cbn [forall_chars count_digits String.length].
  intros [-> Ht]%andb_prop. rewrite (IH Ht). lia.
Qed.

Lemma int_literal_decimal t :
  forall_chars isdecimal_char t = true ->
  int t = int_literal t.
Proof.
  intros H. unfold int.
  rewrite int_strip_no_space by (revert H; apply forall_chars_impl, decimal_not_space).
  destruct t as [|c t]; [reflexivity|].
  simpl in H. apply andb_prop in H as [Hc _].
  apply decimal_not_sign, orb_false_elim in Hc as [-> ->]. reflexivity.
Qed.

(** [int] on decimal text within the limit, and beyond it. *)
Lemma int_decimal t :
  forall_chars isdecimal_char t = true -> len t <= max_str_digits ->
  int t = int_digits t 0 false.
Proof.
  intros H L. rewrite (int_literal_decimal _ H). unfold int_literal.
  rewrite (count_digits_decimal _ H).
  now replace (max_str_digits <? len t) with false by lia.
Qed.

Lemma int_too_long t :
  forall_chars isdecimal_char t = true -> max_str_digits < len t ->
  int t = None.
Proof.
  intros H L. rewrite (int_literal_decimal _ H). unfold int_literal.
  rewrite (count_digits_decimal _ H).
  now replace (max_str_digits <? len t) with true by lia.
Qed.

Lemma string_of_pos p :
  NilZero.string_of_uint (Pos.to_uint p) = NilEmpty.string_of_uint (Pos.to_uint p).
Proof. pose proof (Unsigned.to_uint_nonnil p). now destruct (Pos.to_uint p). Qed.

Lemma str_nonneg n :
  0 <= n ->
  forall_chars isdecimal_char (str n) = true /\ is_empty (str n) = false
  /\ int_digits (str n) 0 true = Some n.
Proof.
  intros Hn. destruct n as [|p|p]; [repeat split| |lia].
  unfold str. cbn [Z.to_int NilZero.string_of_int].
  rewrite string_of_pos.
  pose proof (uint_decimal (Pos.to_uint p)) as Hd.
  pose proof (uint_nonempty _ (Unsigned.to_uint_nonnil p)) as He.
  repeat split; [assumption..|].
  rewrite int_digits_uint.
  now rewrite DecimalPos.Unsigned.of_to.
Qed.

Lemma int_digits_value t acc :
  forall_chars isdecimal_char t = true ->
  int_digits t acc true = Some (value_of acc t).
Proof.
  revert acc. induction t as [|c t IH]; intros acc; simpl; [reflexivity|].
  intros [-> Ht]%andb_prop. now apply IH.
Qed.

Lemma value_of_nonneg t acc :
  forall_chars isdecimal_char t = true -> 0 <= acc -> 0 <= value_of acc t.
Proof.
  revert acc. induction t as [|c t IH]; intros acc; simpl; [auto|].
  intros [Hc Ht]%andb_prop Ha. apply (IH _ Ht).
  unfold isdecimal_char, between in Hc.
  apply andb_prop in Hc as [Hc%N.leb_le _]. lia.
Qed.

(** The decimal string of a positive number does not start with a zero. *)
Lemma to_uint_head p : forall u, Pos.to_uint p <> Decimal.D0 u.
Proof.
  intros u E.
  pose proof (DecimalPos.Unsigned.to_of (Pos.to_uint p)) as N.
  rewrite DecimalPos.Unsigned.of_to in N. cbn [N.to_uint] in N.
  rewrite E, unorm_D0 in N.
  destruct (Decimal.uint_eq_dec u Decimal.Nil) as [->|Hu].
  - apply (DecimalPos.Unsigned.to_uint_nonzero p). exact E.
  - pose proof (nb_digits_unorm u Hu) as L.
    rewrite <- N in L. cbn [Decimal.nb_digits] in L. lia.
Qed.

(** What the digits after a prefix of value [acc] can add up to. *)
Lemma value_of_bounds t acc :
  forall_chars isdecimal_char t = true -> 0 <= acc ->
  acc * 10 ^ len t <= value_of acc t < (acc + 1) * 10 ^ len t.
Proof.
  unfold len. revert acc. induction t as [|c t IH]; intros acc; [simpl; lia|].
  cbn [forall_chars value_of String.length].
  intros [Hc Ht]%andb_prop Ha.
  unfold isdecimal_char, between in Hc.
  apply andb_prop in Hc as [Hc%N.leb_le Hc'%N.leb_le].
  rewrite Nat2Z.inj_succ, Z.pow_succ_r by lia.
  assert (0 < 10 ^ Z.of_nat (String.length t)) by (apply Z.pow_pos_nonneg; lia).
  specialize (IH (10 * acc + (Z.of_N (ord c) - 48)) Ht ltac:(lia)).
  nia.
Qed.

(** The number of digits of a decimal string, from the size of the
    number. *)
Lemma str_length n k :
  0 < k -> 0 <= n -> (len (str n) <= k <-> n < 10 ^ k).
Proof.
  intros Kp Hn.
  destruct n as [|p|p]; [|clear Hn|lia].
  { change (len (str 0)) with 1.
    assert (0 < 10 ^ k) by (apply Z.pow_pos_nonneg; lia). lia. }
  destruct (str_nonneg (Z.pos p)) as (Hd & He & Hi); [lia|].
  rewrite (int_digits_value _ _ Hd) in Hi. injection Hi as Hv.
  revert Hd He Hv. unfold str. cbn [Z.to_int NilZero.string_of_int].
  rewrite string_of_pos.
  pose proof (to_uint_head p) as Hh.
  destruct (Pos.to_uint p) as [|u|u|u|u|u|u|u|u|u|u]; cbn [NilEmpty.string_of_uint];
    [discriminate|now destruct (Hh u)|..].
  all: intros [_ Hd]%andb_prop _ Hv; cbn [value_of] in Hv;
    match type of Hv with
    | value_of ?a _ = _ =>
        let v := eval vm_compute in a in change a with v in Hv;
        pose proof (value_of_bounds _ v Hd ltac:(lia)) as Hl
    end;
    unfold len in *; cbn [String.length]; rewrite Nat2Z.inj_succ;
    set (m := Z.of_nat (String.length (NilEmpty.string_of_uint u))) in *;
    assert (0 < 10 ^ m) by (apply Z.pow_pos_nonneg; lia);
    split; intros G.
  all: first
    [ assert (P : 10 ^ Z.succ m <= 10 ^ k) by (apply Z.pow_le_mono_r; lia);
      rewrite Z.pow_succ_r in P by lia; nia
    | destruct (Z.le_gt_cases (Z.succ m) k) as [|G']; [assumption|exfalso];
      assert (P : 10 ^ k <= 10 ^ m) by (apply Z.pow_le_mono_r; lia);
      nia ].
Qed.

(** Ages are written with at most three digits. *)
Lemma str_short n : 0 <= n <= 120 -> len (str n) <= 3.
Proof.
  intros Hn. apply str_length; [lia|lia|]. change (10 ^ 3) with 1000. lia.
Qed.

Lemma str_neg n :
  n < 0 -> exists t, str n = String "-" t /\ forall_chars isdecimal_char t = true.
Proof.
  intros Hn. destruct n as [|p|p]; [lia|lia|].
  unfold str. cbn [Z.to_int NilZero.string_of_int].
  rewrite string_of_pos. eexists. split; [reflexivity|apply uint_decimal].
Qed.

Lemma lower_decimal t :
  forall_chars isdecimal_char t = true -> lower t = t.
Proof.
  induction t as [|c t IH]; simpl; [reflexivity|].
  intros [Hc Ht]%andb_prop. now rewrite (decimal_lower c Hc), (IH Ht).
Qed.

Lemma lstrip_forall p s :
  forall_chars p s = true -> forall_chars p (lstrip s) = true.
Proof.
  induction s as [|c s IH]; simpl; [reflexivity|].
  intros H. destruct (isspace_char c); [|exact H].
  apply andb_prop in H as [_ H]. now apply IH.
Qed.

Lemma rstrip_forall p s :
  forall_chars p s = true -> forall_chars p (rstrip s) = true.
Proof.
  induction s as [|c s IH]; simpl; [reflexivity|].
  intros [Hc Hs]%andb_prop.
  destruct (isspace_char c && is_empty (rstrip s)); [reflexivity|].
  simpl. now rewrite Hc, IH.
Qed.

Lemma strip_forall p s :
  forall_chars p s = true -> forall_chars p (strip s) = true.
Proof. intros H. unfold strip. now apply rstrip_forall, lstrip_forall. Qed.

End Decimal.

(** ** The validators *)

Section Validators.

Import Str.

Lemma exit_requested_spec raw :
  _exit_requested (strip raw) = true <-> cancel_token raw.
Proof. unfold _exit_requested, cancel_token. rewrite strip_strip. apply mem2. Qed.

(** Upper-casing a cancellation token keeps it one ([stateOfResidence]
    upper-cases before it tests for exit). *)
Lemma cancel_token_upper raw :
  cancel_token raw -> _exit_requested (upper (strip raw)) = true.
Proof.
  unfold cancel_token, _exit_requested. generalize (strip raw) as u.
  intros u H. apply mem2.
  assert (E : lower (strip (upper u)) = lower u); [|now rewrite E].
  destruct u as [|c1 [|c2 [|c3 [|c4 [|c5 u]]]]];
    try (destruct H as [H|H]; discriminate H).
  assert (L : forall c, In c [c1; c2; c3; c4] ->
              between 97 122 (ord (lower_char c)) = true).
  { intros c Hc. simpl in H, Hc.
    destruct H as [[= H1 H2 H3 H4]|[= H1 H2 H3 H4]];
      destruct Hc as [<-|[<-|[<-|[<-|[]]]]];
      first [now rewrite H1|now rewrite H2|now rewrite H3|now rewrite H4]. }
  cbn [upper]. rewrite !upper_of_lowered by (apply L; simpl; auto).
  simpl in H. cbn [lower].
  destruct H as [[= -> -> -> ->]|[= -> -> -> ->]]; reflexivity.
Qed.

Lemma cancel_first raw : cancel_token raw -> firstName_attempt raw = Ok CancelRequested.
Proof. intros H%exit_requested_spec. unfold firstName_attempt. now rewrite H. Qed.

Lemma cancel_last raw : cancel_token raw -> lastName_attempt raw = Ok CancelRequested.
Proof. intros H%exit_requested_spec. unfold lastName_attempt. now rewrite H. Qed.

Lemma cancel_age raw : cancel_token raw -> isValidAge_attempt raw = Ok CancelRequested.
Proof. intros H%exit_requested_spec. unfold isValidAge_attempt. now rewrite H. Qed.

Lemma cancel_citizen raw :
  cancel_token raw -> countryOfCitizenship_attempt raw = Ok CancelRequested.
Proof.
  intros H%exit_requested_spec. unfold countryOfCitizenship_attempt. now rewrite H.
Qed.

Lemma cancel_state raw :
  cancel_token raw -> stateOfResidence_attempt raw = Ok CancelRequested.
Proof.
  intros H%cancel_token_upper. unfold stateOfResidence_attempt. now rewrite H.
Qed.

Lemma cancel_zip raw : cancel_token raw -> zipCode_attempt raw = Ok CancelRequested.
Proof. intros H%exit_requested_spec. unfold zipCode_attempt. now rewrite H. Qed.

(** Text that starts with a digit or a hyphen is no cancellation token. *)
Lemma not_cancel_token c t :
  isdecimal_char c || Ascii.eqb c "-" = true ->
  forall_chars (fun c => negb (isspace_char c)) (String c t) = true ->
  _exit_requested (strip (String c t)) = false.
Proof.
  intros Hc Hs. apply not_true_iff_false. rewrite exit_requested_spec.
  unfold cancel_token. rewrite (strip_no_space _ Hs). simpl.
  intros [[= E _]|[= E _]]; revert Hc E;
    destruct c as [[] [] [] [] [] [] [] []]; vm_compute; congruence.
Qed.

Lemma age_decimal t n :
  forall_chars isdecimal_char t = true -> is_empty t = false ->
  len t <= max_str_digits ->
  int_digits t 0 true = Some n ->
  isValidAge_attempt t
  = Ok (if (0 <=? n) && (n <=? 120) then Accepted (VInt n) else Retry).
Proof.
  intros Hd He Hl Hn. unfold isValidAge_attempt.
  assert (Hs : forall_chars (fun c => negb (isspace_char c)) t = true)
    by (revert Hd; apply forall_chars_impl, decimal_not_space).
  assert (Hi : int t = Some n)
    by now rewrite int_decimal, int_digits_start.
  destruct t as [|c t]; [discriminate|].
  rewrite not_cancel_token; [|simpl in Hd; apply andb_prop in Hd as [-> _]; reflexivity|assumption].
  rewrite (strip_no_space _ Hs).
  unfold isdigit. cbn [is_empty negb andb].
  rewrite (forall_chars_impl _ _ _ decimal_is_digit Hd), Hi.
  now destruct ((0 <=? n) && (n <=? 120)).
Qed.

(** Decimal text beyond the limit of [int]: [isdigit] passes it, and [int]
    raises. *)
Lemma age_too_long t :
  forall_chars isdecimal_char t = true -> max_str_digits < len t ->
  isValidAge_attempt t = Raise ValueError.
Proof.
  intros Hd Hl. unfold isValidAge_attempt.
  assert (Hs : forall_chars (fun c => negb (isspace_char c)) t = true)
    by (revert Hd; apply forall_chars_impl, decimal_not_space).
  pose proof (int_too_long _ Hd Hl) as Hi.
  destruct t as [|c t]; [now vm_compute in Hl|].
  rewrite not_cancel_token; [|simpl in Hd; apply andb_prop in Hd as [-> _]; reflexivity|assumption].
  rewrite (strip_no_space _ Hs).
  unfold isdigit. cbn [is_empty negb andb].
  now rewrite (forall_chars_impl _ _ _ decimal_is_digit Hd), Hi.
Qed.

Lemma age_accepts raw v :
  isValidAge_attempt raw = Ok (Accepted v) -> exists n, v = VInt n /\ 0 <= n <= 120.
Proof.
  unfold isValidAge_attempt.
  destruct (_exit_requested _); [discriminate|].
  destruct (isdigit _); [|discriminate].
  destruct (int (strip raw)) as [n|]; [|discriminate].
  destruct ((0 <=? n) && (n <=? 120)) eqn:R; [|discriminate].
  intros [= <-]. exists n. split; [reflexivity|]. lia.
Qed.

(** The decimal string of a number of more than 4300 digits. *)
Lemma age_beyond n :
  10 ^ 4300 <= n -> isValidAge_attempt (str n) = Raise ValueError.
Proof.
  intros Hb.
  assert (Hn : 0 <= n)
    by (etransitivity; [|exact Hb]; apply Z.pow_nonneg; discriminate).
  apply age_too_long; [now apply str_nonneg|].
  apply Z.lt_nge. intros L%(str_length n 4300); [|reflexivity|exact Hn].
  now apply Z.lt_nge in L.
Qed.

Lemma age_raises raw e :
  isValidAge_attempt raw = Raise e -> e = ValueError /\ int_fails raw.
Proof.
  unfold isValidAge_attempt, int_fails.
  destruct (_exit_requested _); [discriminate|].
  destruct (isdigit (strip raw)) eqn:D; [|discriminate].
  destruct (int (strip raw)) as [n|] eqn:I.
  - destruct ((0 <=? n) && (n <=? 120)); discriminate.
  - now intros [= <-].
Qed.

Lemma citizen_accepts raw v :
  countryOfCitizenship_attempt raw = Ok (Accepted v) -> exists b, v = VBool b.
Proof.
  unfold countryOfCitizenship_attempt.
  destruct (_exit_requested _); [discriminate|].
  destruct (_yes_no _) as [b|]; [|discriminate].
  intros [= <-]. now exists b.
Qed.

End Validators.

(** ** What the ZIP pattern matches *)

Section Zip.

Import Str.

Lemma length_append (s t : string) :
  String.length (s ++ t) = (String.length s + String.length t)%nat.
Proof. induction s as [|c s IH]; simpl; [reflexivity|now rewrite IH]. Qed.

Lemma append_empty_r (s : string) : s ++ "" = s.
Proof. induction s as [|c s IH]; simpl; [reflexivity|now rewrite IH]. Qed.

Lemma length_lower s : String.length (lower s) = String.length s.
Proof. induction s as [|c s IH]; simpl; [reflexivity|now rewrite IH]. Qed.

Lemma lang_rep_cls n items s :
  lang (rep n (Cls items)) s
  <-> String.length s = n /\ forall_chars (in_class items) s = true.
Proof.
  revert s. induction n as [|n IH]; intros s; simpl.
  - split.
    + intros H. inversion H. now split.
    + intros [H _]. destruct s; [constructor|discriminate].
  - split.
    + intros H. inversion H as [| | |? ? s1 s2 H1 H2| | | |]; subst.
      apply IH in H2 as [Hlen Hall].
      inversion H1 as [| |? c Hc| | | | |]; subst. simpl.
      split; [reflexivity|]. now rewrite Hc, Hall.
    + intros [Hl Hf]. destruct s as [|c s]; [discriminate|].
      simpl in Hl, Hf. apply andb_prop in Hf as [Hc Hf].
      apply (L_seq (Cls items) (rep n (Cls items)) (String c "") s).
      * now constructor.
      * apply IH. split; [congruence|assumption].
Qed.

Lemma forall_in_class_digit s :
  forall_chars (in_class [Digit]) s = forall_chars isdecimal_char s.
Proof.
  induction s as [|c s IH]; simpl; [reflexivity|].
  now rewrite IH, orb_false_r.
Qed.

Lemma lang_digits n s : lang (rep n (Cls [Digit])) s <-> digits n s.
Proof. unfold digits. now rewrite lang_rep_cls, forall_in_class_digit. Qed.

Lemma zip_pat_shape s : fullmatch zip_pat s = true <-> zip_shape s.
Proof.
  rewrite fullmatch_lang. unfold zip_pat. split.
  - intros H. inversion H as [| | |? ? a t Ha Ht| | | |]; subst.
    inversion Ht as [| | |? ? o e Ho He| | | |]; subst.
    inversion He; subst. rewrite append_empty_r. apply (lang_digits 5) in Ha.
    inversion Ho as [| | | |? ? ? Hg|? ? ? Hg| |]; subst.
    + inversion Hg as [| | |? ? h b Hh Hb| | | |]; subst.
      inversion Hh as [| |? c Hc| | | | |]; subst.
      simpl in Hc. rewrite orb_false_r in Hc.
      apply Ascii.eqb_eq in Hc as ->. apply (lang_digits 4) in Hb.
      now apply zip9.
    + inversion Hg; subst. rewrite append_empty_r. now apply zip5.
  - intros [a Ha|a b Ha Hb].
    + rewrite <- (append_empty_r a).
      apply L_seq; [now apply (lang_digits 5)|].
      apply (L_seq _ _ "" ""); [apply L_alt_r|]; constructor.
    + apply L_seq; [now apply (lang_digits 5)|].
      rewrite <- (append_empty_r ("-" ++ b)).
      apply L_seq; [|constructor]. apply L_alt_l.
      apply (L_seq _ _ "-" b); [now constructor|now apply (lang_digits 4)].
Qed.

Lemma zip_shape_length s :
  zip_shape s -> String.length s = 5%nat \/ String.length s = 10%nat.
Proof.
  intros [a [Ha _]|a b [Ha _] [Hb _]]; [now left|right].
  rewrite !length_append, Ha, Hb. reflexivity.
Qed.

Lemma zip_shape_chars s :
  zip_shape s ->
  forall_chars (fun c => isdecimal_char c || Ascii.eqb c "-") s = true.
Proof.
  assert (D : forall t, forall_chars isdecimal_char t = true ->
              forall_chars (fun c => isdecimal_char c || Ascii.eqb c "-") t = true).
  { intros t. apply forall_chars_impl. now intros c ->. }
  intros [a [_ Ha]|a b [_ Ha] [_ Hb]]; [now apply D|].
  rewrite !forall_chars_app. rewrite (D a Ha), (D b Hb). reflexivity.
Qed.

Lemma zip_char_not_space c :
  isdecimal_char c || Ascii.eqb c "-" = true -> negb (isspace_char c) = true.
Proof. destruct c as [[] [] [] [] [] [] [] []]; vm_compute; congruence. Qed.

Lemma edit1_length a a' :
  edit1 a a' ->
  S (String.length a') = String.length a \/ String.length a' = S (String.length a).
Proof.
  intros [u c v|u c v]; rewrite !length_append; simpl; lia.
Qed.

Lemma edit1_remove_chars p a a' :
  edit1 a a' -> S (String.length a') = String.length a ->
  forall_chars p a = true -> forall_chars p a' = true.
Proof.
  intros [u c v|u c v]; rewrite !length_append; simpl; [|lia].
  intros _. rewrite !forall_chars_app. simpl.
  intros [-> [_ ->]%andb_prop]%andb_prop. reflexivity.
Qed.

(** An edited ZIP has a length no ZIP has; at length 4 it is all digits. *)
Lemma zip_mutant_length s :
  zip_mutant s ->
  (String.length s <> 5%nat /\ String.length s <> 10%nat)
  /\ (String.length s = 4%nat -> forall_chars isdecimal_char s = true).
Proof.
  intros [a a' [Ha Da] E|a a' b [Ha Da] [Hb Db] E|a b b' [Ha Da] [Hb Db] E];
    pose proof (edit1_length _ _ E) as L;
    rewrite ?length_append; simpl; rewrite ?length_append in *; simpl in *.
  - split; [lia|]. intros L4. apply (edit1_remove_chars _ _ _ E); [lia|assumption].
  - split; lia.
  - split; lia.
Qed.

(** *** An added whitespace character *)

#[local] Abbreviation no_space s :=
  (forall_chars (fun c => negb (isspace_char c)) s = true).

Lemma app_assoc_s (x y z : string) : (x ++ y) ++ z = x ++ (y ++ z).
Proof. induction x as [|c x IH]; simpl; [reflexivity|now rewrite IH]. Qed.

Lemma rstrip_app_space s c :
  isspace_char c = true -> rstrip (s ++ String c "") = rstrip s.
Proof.
  intros Hc. induction s as [|d s IH]; simpl; [now rewrite Hc|now rewrite IH].
Qed.

Lemma rstrip_app x y :
  is_empty (rstrip y) = false -> rstrip (x ++ y) = x ++ rstrip y.
Proof.
  intros Hy. induction x as [|c x IH]; simpl; [reflexivity|].
  rewrite IH. destruct (x ++ rstrip y) eqn:E; [|now rewrite andb_false_r].
  apply append_empty_inv in E as [_ E]. now rewrite E in Hy.
Qed.

Lemma strip_leading c w :
  isspace_char c = true -> no_space w -> strip (String c w) = w.
Proof.
  intros Hc Hw. unfold strip. simpl. rewrite Hc. now apply strip_no_space.
Qed.

Lemma strip_trailing u c :
  isspace_char c = true -> no_space u -> strip (u ++ String c "") = u.
Proof.
  intros Hc Hu. unfold strip.
  destruct u as [|d u]; simpl; [now rewrite Hc|].
  simpl in Hu. apply andb_prop in Hu as [Hd Hu].
  apply negb_true_iff in Hd. rewrite Hd. simpl.
  now rewrite rstrip_app_space, (rstrip_no_space u Hu), Hd.
Qed.

Lemma strip_inner u c w :
  no_space u -> no_space w -> is_empty u = false -> is_empty w = false ->
  strip (u ++ String c w) = u ++ String c w.
Proof.
  intros Hu Hw Eu Ew. unfold strip.
  assert (lstrip (u ++ String c w) = u ++ String c w) as ->.
  { destruct u as [|d u]; [discriminate|]. simpl in *.
    apply andb_prop in Hu as [Hd _]. apply negb_true_iff in Hd. now rewrite Hd. }
  assert (R : rstrip (String c w) = String c w).
  { simpl. rewrite (rstrip_no_space w Hw), Ew. now rewrite andb_false_r. }
  rewrite rstrip_app; now rewrite R.
Qed.

Lemma digits_no_space n a : digits n a -> no_space a.
Proof. intros [_ H]. revert H. apply forall_chars_impl, decimal_not_space. Qed.

Lemma digits_nonempty n a : digits (S n) a -> is_empty a = false.
Proof. intros [H _]. now destruct a. Qed.

(** Editing a segment either leaves it free of whitespace or put a
    whitespace character between two parts of it. *)
Lemma edit1_space a a' :
  edit1 a a' -> no_space a ->
  no_space a'
  \/ exists u c v,
       a = u ++ v /\ a' = u ++ String c v /\ isspace_char c = true
       /\ no_space u /\ no_space v.
Proof.
  intros [u c v|u c v]; rewrite !forall_chars_app; simpl.
  - intros [-> [_ ->]%andb_prop]%andb_prop. now left.
  - intros [Hu Hv]%andb_prop. destruct (isspace_char c) eqn:Hc.
    + right. now exists u, c, v.
    + left. now rewrite Hu, Hv.
Qed.

(** An edited ZIP is left alone by [strip], or [strip] turns it back into
    a ZIP. *)
Lemma zip_mutant_strip s :
  zip_mutant s -> strip s = s \/ zip_shape (strip s).
Proof.
  intros [a a' Ha E|a a' b Ha Hb E|a b b' Ha Hb E].
  - destruct (edit1_space _ _ E (digits_no_space _ _ Ha))
      as [H|(u & c & v & -> & -> & Hc & Hu & Hv)];
      [left; now apply strip_no_space|].
    destruct u as [|d u].
    + right. simpl. rewrite (strip_leading c v Hc Hv). now apply zip5.
    + destruct v as [|e v].
      * right. rewrite (strip_trailing _ c Hc Hu).
        rewrite append_empty_r in Ha. now apply zip5.
      * left. now apply strip_inner.
  - destruct (edit1_space _ _ E (digits_no_space _ _ Ha))
      as [H|(u & c & v & -> & -> & Hc & Hu & Hv)].
    + left. apply strip_no_space. rewrite !forall_chars_app, H. simpl.
      apply (digits_no_space _ _ Hb).
    + assert (Hw : no_space (v ++ "-" ++ b)).
      { rewrite !forall_chars_app, Hv. simpl. apply (digits_no_space _ _ Hb). }
      rewrite app_assoc_s. change (String c v ++ "-" ++ b) with (String c (v ++ "-" ++ b)).
      destruct u as [|d u].
      * right. change ("" ++ String c (v ++ "-" ++ b))
          with (String c (v ++ "-" ++ b)).
        rewrite (strip_leading c _ Hc Hw). now apply zip9.
      * left. apply strip_inner; try assumption; try reflexivity.
        destruct v; reflexivity.
  - destruct (edit1_space _ _ E (digits_no_space _ _ Hb))
      as [H|(u & c & v & -> & -> & Hc & Hu & Hv)].
    + left. apply strip_no_space.
      rewrite !forall_chars_app, (digits_no_space _ _ Ha). simpl. exact H.
    + assert (Hw : no_space (a ++ "-" ++ u)).
      { rewrite !forall_chars_app, (digits_no_space _ _ Ha). simpl. exact Hu. }
      replace (a ++ "-" ++ u ++ String c v) with ((a ++ "-" ++ u) ++ String c v)
        by (now rewrite !app_assoc_s).
      destruct v as [|e v].
      * right. rewrite (strip_trailing _ c Hc Hw).
        rewrite append_empty_r in Hb. now apply zip9.
      * left. apply strip_inner; try assumption; try reflexivity.
        pose proof (digits_nonempty _ _ Ha). now destruct a.
Qed.

End Zip.

(** ** [main] *)

Section Main.

Lemma main_try_eq script res0 :
  main_try (mkState script res0) =
  match _ask_continue script with
  | (Ok true, i0) =>
      match for_steps steps (mkState i0 ∅) with
      | (Ok _, st') =>
          match summary (results st') with
          | Ok _ => (Ok (results st'), st')
          | Raise e => (Raise e, st')
          end
      | (Raise e, st') => (Raise e, st')
      end
  | (Ok false, i0) => (Raise (CancelRegistration initial_message), mkState i0 res0)
  | (Raise e, i0) => (Raise e, mkState i0 res0)
  end.
Proof.
  unfold main_try, bind, read, lift, ret, get_results, set_results,
    _continue_or_raise. cbn [stdin results].
  destruct (_ask_continue script) as [[[]|e] i0]; reflexivity.
Qed.

Lemma guard_age n : _age_check (VInt n) = Ok tt <-> 18 <= n.
Proof.
  unfold _age_check, lt_18. destruct (n <? 18) eqn:E; split; try discriminate;
    try reflexivity; lia.
Qed.

Lemma guard_citizen b : _citizen_check (VBool b) = Ok tt <-> b = true.
Proof.
  destruct b; unfold _citizen_check; simpl; split; intros H;
    try reflexivity; discriminate H.
Qed.

(** After the six steps the record holds the six accepted values, and the
    guarded ones satisfy their guards. *)
Lemma completes_record script res rest r :
  completes validators script res rest r ->
  exists f l n s z,
    r = <["zip" := z]> (<["state" := s]> (<["citizen" := VBool true]>
          (<["age" := VInt n]> (<["last" := l]> (<["first" := f]> res)))))
    /\ 18 <= n <= 120.
Proof.
  cbn [completes validators passes].
  intros (_ & ? & f & _ & _ & _ & _ & ? & l & _ & _ & _
          & _ & ? & a & _ & (? & ? & _ & _ & Ha) & Ga
          & _ & ? & c & _ & (? & ? & _ & _ & Hc) & Gc
          & _ & ? & s & _ & _ & _ & _ & ? & z & _ & _ & _ & _ & <-).
  apply age_accepts in Ha as (n & -> & Hn). apply guard_age in Ga.
  apply citizen_accepts in Hc as (b & ->). apply guard_citizen in Gc as ->.
  exists f, l, n, s, z. split; [reflexivity|lia].
Qed.

Lemma summary_ok script res rest r :
  completes validators script res rest r -> exists lines, summary r = Ok lines.
Proof.
  intros (f & l & n & s & z & -> & _)%completes_record.
  unfold summary, getitem. simplify_map_eq. eauto.
Qed.

End Main.

(** ** How a run can end *)

Section Outcomes.

Lemma answered_suffix (P : string -> Prop) yn script rest :
  answered yn script rest -> Forall P script -> Forall P rest.
Proof.
  intros (retries & line & -> & _ & _) H.
  apply Forall_app in H as [_ H]. now apply Forall_cons in H as [_ H].
Qed.

Lemma settles_suffix (P : string -> Prop) attempt script out rest :
  settles attempt script out rest -> Forall P script ->
  exists line, attempt line = out /\ P line /\ Forall P rest.
Proof.
  intros (retries & line & -> & _ & Hl) H.
  apply Forall_app in H as [_ H]. apply Forall_cons in H as [H1 H2].
  now exists line.
Qed.

Lemma validators_well_behaved : Forall well_behaved validators.
Proof.
  unfold validators.
  repeat (apply Forall_cons; split); [..|apply Forall_nil]; split;
    try (intros l v _; exact I);
    try (now apply age_raises);
    try (intros l e;
         cbv beta zeta delta
           [firstName_attempt lastName_attempt countryOfCitizenship_attempt
            stateOfResidence_attempt zipCode_attempt];
         repeat case_match; discriminate).
  - intros l v (n & -> & _)%age_accepts.
    unfold _age_check, lt_18. destruct (n <? 18); auto.
  - intros l v (b & ->)%citizen_accepts. destruct b; auto.
Qed.

(** The [for] loop ends normally, by running out of input, by the
    [ValueError] of [int] at the age prompt, or by a cancellation with one
    of two messages. *)
Lemma for_steps_outcome vs script res r st' :
  Forall well_behaved vs ->
  for_steps (steps_of vs) (mkState script res) = (r, st') ->
  r = Ok tt
  \/ (r = Raise EOFError /\ stdin st' = [])
  \/ (r = Raise ValueError /\ ~ Forall convertible script)
  \/ r = Raise (CancelRegistration default_message)
  \/ r = Raise (CancelRegistration guard_message).
Proof.
  intros Hvs. revert script res.
  induction Hvs as [|[[key attempt] guard] vs [Hraise Hguard] _ IH];
    intros script res; unfold steps_of; cbn [map].
  - simpl. unfold ret. intros [= <- <-]. auto.
  - fold (steps_of vs). rewrite for_steps_cons, step_body_eq.
    assert (Later : forall i2 res2,
      (forall P : string -> Prop, Forall P script -> Forall P i2) ->
      for_steps (steps_of vs) (mkState i2 res2) = (r, st') ->
      r = Ok tt
      \/ (r = Raise EOFError /\ stdin st' = [])
      \/ (r = Raise ValueError /\ ~ Forall convertible script)
      \/ r = Raise (CancelRegistration default_message)
      \/ r = Raise (CancelRegistration guard_message)).
    { intros i2 res2 Hsuf F.
      destruct (IH _ _ F) as [?|[?|[[? Hn]|?]]]; auto.
      right. right. left. split; [assumption|]. intros HP. apply Hn, Hsuf, HP. }
    destruct (_ask_continue script) as [[[]|e] i1] eqn:A.
    + apply ask_continue_answered in A.
      destruct (prompt_loop attempt i1) as [rv i2] eqn:P.
      apply prompt_loop_inv in P
        as [(-> & -> & _)|(out & Ho & Hs & ->)].
      { intros [= <- <-]. auto. }
      assert (Hline : forall P : string -> Prop, Forall P script ->
                exists line, attempt line = out /\ P line /\ Forall P i2).
      { intros P HP. eapply settles_suffix; [exact Hs|].
        exact (answered_suffix _ _ _ _ A HP). }
      destruct out as [[v| |]|e].
      * destruct (Hline (fun _ => True)) as (line & Hl & _);
          [now apply Forall_forall|].
        assert (Hsuf : forall P : string -> Prop, Forall P script -> Forall P i2).
        { intros P HP. now destruct (Hline P HP) as (? & _ & _ & ?). }
        specialize (Hguard _ _ Hl). destruct guard as [check|].
        -- destruct Hguard as [->| ->]; [now apply Later|].
           intros [= <- <-]. auto 6.
        -- now apply Later.
      * congruence.
      * intros [= <- <-]. auto 6.
      * intros [= <- <-]. right. right. left.
        destruct (Hline (fun _ => True)) as (line & Hl & _);
          [now apply Forall_forall|].
        destruct (Hraise _ _ Hl) as [-> _]. split; [reflexivity|].
        intros HP. destruct (Hline _ HP) as (line' & Hl' & Hf & _).
        destruct (Hraise _ _ Hl') as [_ Hn]. now apply Hf.
    + intros [= <- <-]. auto 6.
    + apply ask_continue_raise in A as [-> ->].
      intros [= <- <-]. auto.
Qed.

End Outcomes.

(** * The claims of the specification *)

Section Claims.

Import Str.

(** What [main] does once the first continuation question got its answer. *)
Lemma main_answered script res0 yn i0 :
  answered yn script i0 ->
  main (mkState script res0) =
  if yn then
    match for_steps steps (mkState i0 ∅) with
    | (Ok _, st') =>
        match summary (results st') with
        | Ok _ => (Ok (Completed (results st')), st')
        | Raise (CancelRegistration m) => (Ok (Cancelled m), st')
        | Raise e => (Raise e, st')
        end
    | (Raise (CancelRegistration m), st') => (Ok (Cancelled m), st')
    | (Raise e, st') => (Raise e, st')
    end
  else (Ok (Cancelled initial_message), mkState i0 res0).
Proof.
  intros A%ask_continue_answered. unfold main. rewrite main_try_eq, A.
  destruct yn; [|reflexivity].
  destruct (for_steps steps (mkState i0 ∅)) as [[[]|e] st']; [|reflexivity].
  destruct (summary (results st')); reflexivity.
Qed.

(** C1: with the confirmation answered "yes" at the start and, re-invoked,
    before each of the six steps, and with "Ann", "Lee", "25", "yes", "MD",
    "21201" entered at the prompts for first name, last name, age,
    citizenship, state and ZIP, the run ends in [Completed] with the record
    first "Ann", last "Lee", age 25, citizen True, state "MD", zip "21201",
    and the whole script is consumed. *)
Theorem scenario_A :
  run script_A = Ok (Completed record_A)
  /\ main (mkState script_A ∅) = (Ok (Completed record_A), mkState [] record_A).
Proof. split; vm_compute; reflexivity. Qed.

(** C6: if the first continuation question is answered no, [main] ends at
    once in [Cancelled] with the initial phrasing; nothing after that answer
    is read (no field prompt is reached) and [results] stays empty. No other
    ending of a run carries the initial phrasing. *)
Theorem initial_decline script :
  (forall rest,
     answered false script rest ->
     main (mkState script ∅) = (Ok (Cancelled initial_message), mkState rest ∅))
  /\ (forall st',
        main (mkState script ∅) = (Ok (Cancelled initial_message), st') ->
        answered false script (stdin st') /\ results st' = ∅).
Proof.
  split.
  - intros rest A. now rewrite (main_answered _ _ _ _ A).
  - intros st'.
    destruct (_ask_continue script) as [[yn|e] i0] eqn:A.
    + apply ask_continue_answered in A. rewrite (main_answered _ _ _ _ A).
      destruct yn; [|now intros [= <-]].
      destruct (for_steps steps (mkState i0 ∅)) as [r st1] eqn:F.
      rewrite steps_validators in F.
      destruct (for_steps_outcome _ _ _ _ _ validators_well_behaved F)
        as [->|[[-> _]|[[-> _]|[->| ->]]]]; try discriminate.
      destruct st1 as [rest r]. apply for_steps_completes in F. cbn [results].
      destruct (summary_ok _ _ _ _ F) as [lines ->]. discriminate.
    + unfold main. rewrite main_try_eq, A.
      apply ask_continue_raise in A as [-> ->]. discriminate.
Qed.

(** C6 at the script ["no"; "Ann"]. *)
Lemma initial_decline_witness :
  answered false ["no"; "Ann"] ["Ann"]
  /\ main (mkState ["no"; "Ann"] ∅)
     = (Ok (Cancelled initial_message), mkState ["Ann"] ∅).
Proof.
  assert (A : answered false ["no"; "Ann"] ["Ann"])
    by (apply ask_continue_answered; reflexivity).
  split; [exact A|].
  exact (proj1 (initial_decline ["no"; "Ann"]) ["Ann"] A).
Defined.

(** C9: at the continuation question "exit" and "quit" are neither a
    cancellation nor an answer: such a line is skipped and the question is
    asked again. [_ask_continue] returns exactly when a line says yes or no
    (trimmed, in any letter case), after skipping every line that does not;
    and [_continue_or_raise] cancels only on a no, its one other ending
    being the [EOFError] of a script that ran out. *)
Theorem continuation_prompt :
  (forall raw, cancel_token raw -> no_answer raw)
  /\ (forall raw rest,
        cancel_token raw -> _ask_continue (raw :: rest) = _ask_continue rest)
  /\ (forall script yn rest,
        _ask_continue script = (Ok yn, rest) <-> answered yn script rest)
  /\ (forall initial script rest,
        (exists message,
           _continue_or_raise initial script
           = (Raise (CancelRegistration message), rest))
        <-> answered false script rest)
  /\ (forall initial script e rest,
        _continue_or_raise initial script = (Raise e, rest) ->
        (e = EOFError /\ rest = []) \/ answered false script rest).
Proof.
  assert (N : forall raw, cancel_token raw -> no_answer raw).
  { intros raw [H|H]; split; unfold says; rewrite H; intros [E|E]; discriminate E. }
  split; [exact N|]. split; [|split; [|split]].
  - intros raw rest H%N%yes_no_none. simpl. now rewrite H.
  - apply ask_continue_answered.
  - intros initial script rest. rewrite <- ask_continue_answered.
    unfold _continue_or_raise.
    destruct (_ask_continue script) as [[[]|e] i] eqn:A; split.
    + intros [m [=]].
    + discriminate.
    + intros [m [= _ ->]]. reflexivity.
    + intros [= ->]. eexists. reflexivity.
    + apply ask_continue_raise in A as [-> ->]. intros [m [=]].
    + discriminate.
  - intros initial script e rest. unfold _continue_or_raise.
    destruct (_ask_continue script) as [[[]|e'] i] eqn:A.
    + discriminate.
    + intros [= _ <-]. right. now apply ask_continue_answered.
    + apply ask_continue_raise in A as [-> ->]. intros [= <- <-]. now left.
Qed.

(** C9 at the script ["exit"; "quit"; " No "; "Ann"]. *)
Lemma continuation_prompt_witness :
  cancel_token "exit"
  /\ _ask_continue ["exit"; "quit"; " No "; "Ann"]
     = _ask_continue ["quit"; " No "; "Ann"]
  /\ answered false ["exit"; "quit"; " No "; "Ann"] ["Ann"].
Proof.
  assert (T : cancel_token "exit") by (left; reflexivity).
  split; [exact T|]. split.
  - exact (proj1 (proj2 continuation_prompt) "exit" ["quit"; " No "; "Ann"] T).
  - exact (proj1 (proj1 (proj2 (proj2 continuation_prompt))
                    ["exit"; "quit"; " No "; "Ann"] false ["Ann"])
             eq_refl).
Defined.

(** C8: the outcome of [main] is a function of the script alone: it does
    not depend on the [results] left behind by an earlier run, because each
    run starts from [results = {}]; so a second run on the same script,
    started in the state the first run ended in, has the same outcome. *)
Theorem rerun_same_outcome script :
  (forall res1 res2,
     fst (main (mkState script res1)) = fst (main (mkState script res2)))
  /\ (forall res0,
        let first_run := main (mkState script res0) in
        let second_run := main (mkState script (results (snd first_run))) in
        fst second_run = fst first_run).
Proof.
  assert (I : forall res1 res2,
            fst (main (mkState script res1)) = fst (main (mkState script res2))).
  { intros res1 res2.
    destruct (_ask_continue script) as [[yn|e] i0] eqn:A.
    - apply ask_continue_answered in A. rewrite !(main_answered _ _ _ _ A).
      now destruct yn.
    - unfold main. rewrite !main_try_eq, A. now destruct e. }
  split; [exact I|]. intros res0 first_run second_run. apply I.
Qed.

(** When the first [k] steps completed and step [k] raises, that is how
    [main] ends: a [CancelRegistration] is caught and becomes [Cancelled]. *)
Lemma main_stops k key attempt guard script res0 i0 ik resk e st' :
  validators !! k = Some (key, attempt, guard) ->
  answered true script i0 ->
  completes (take k validators) i0 ∅ ik resk ->
  step_body (key, prompt_loop attempt, guard) (mkState ik resk) = (Raise e, st') ->
  main (mkState script res0)
  = (match e with
     | CancelRegistration m => Ok (Cancelled m)
     | _ => Raise e
     end, st').
Proof.
  intros Hk A C Hstep. rewrite (main_answered _ _ _ _ A).
  assert (steps = (steps_of (take k validators)
                   ++ (key, prompt_loop attempt, guard)
                      :: steps_of (drop (S k) validators))%list) as ->.
  { rewrite steps_validators.
    rewrite <- (take_drop_middle validators k _ Hk) at 1.
    unfold steps_of. now rewrite map_app. }
  apply for_steps_completes in C.
  rewrite for_steps_app, C, for_steps_cons, Hstep. now destruct e.
Qed.

(** C2: a line whose trimmed, case-folded form is "exit" or "quit" makes
    every one of the six validators return [CancelRequested]; and at
    whichever step the line is read (the steps before it completed, the
    continuation question was answered yes, any number of rejected lines
    came first), [main] stops there and ends in [Cancelled] with the
    generic message "Registration canceled. Goodbye!", the record as the
    earlier steps left it. *)
Theorem cancel_token_cancels raw :
  cancel_token raw ->
  Forall (fun '(_, attempt, _) => attempt raw = Ok CancelRequested) validators
  /\ (forall k key attempt guard script res0 i0 ik resk i' retries rest,
        validators !! k = Some (key, attempt, guard) ->
        answered true script i0 ->
        completes (take k validators) i0 ∅ ik resk ->
        answered true ik i' ->
        i' = (retries ++ raw :: rest)%list ->
        Forall (fun l => attempt l = Ok Retry) retries ->
        main (mkState script res0)
        = (Ok (Cancelled default_message), mkState rest resk)).
Proof.
  intros T.
  assert (V : Forall (fun '(_, attempt, _) => attempt raw = Ok CancelRequested)
                validators).
  { repeat constructor;
      auto using cancel_first, cancel_last, cancel_age, cancel_citizen,
                 cancel_state, cancel_zip. }
  split; [exact V|].
  intros k key attempt guard script res0 i0 ik resk i' retries rest Hk A C A' -> R.
  apply (main_stops k key attempt guard script res0 i0 ik resk
           (CancelRegistration default_message)); try assumption.
  rewrite step_body_eq. apply ask_continue_answered in A'. rewrite A'.
  rewrite (prompt_loop_settles attempt _ rest (Ok CancelRequested));
    [reflexivity|discriminate|].
  exists retries, raw. repeat split; [assumption|].
  rewrite Forall_forall in V. exact (V _ (list_elem_of_lookup_2 _ _ _ Hk)).
Qed.

(** C2 at scenario B: confirm yes, confirm yes, first name " Exit ". *)
Lemma cancel_token_cancels_witness :
  cancel_token " Exit "
  /\ main (mkState ["yes"; "yes"; " Exit "; "Lee"] ∅)
     = (Ok (Cancelled default_message), mkState ["Lee"] ∅).
Proof.
  assert (T : cancel_token " Exit ") by (left; reflexivity).
  split; [exact T|].
  refine (proj2 (cancel_token_cancels " Exit " T)
            0%nat "first" firstName_attempt None
            ["yes"; "yes"; " Exit "; "Lee"] ∅ ["yes"; " Exit "; "Lee"]
            ["yes"; " Exit "; "Lee"] ∅ [" Exit "; "Lee"] [] ["Lee"]
            eq_refl _ _ _ eq_refl _).
  - apply ask_continue_answered. reflexivity.
  - split; reflexivity.
  - apply ask_continue_answered. reflexivity.
  - constructor.
Defined.

(** C5: at a step with a guard (age, citizenship), when the validator
    accepts a value and the guard raises, [main] ends in [Cancelled] with
    the guard's message, which is not the generic one, and [results] has no
    entry under the step's key. The age guard raises exactly below 18, the
    citizenship guard exactly on [False]. *)
Theorem guard_precedence :
  (forall k key attempt check script res0 i0 ik resk i' v rest reason,
     validators !! k = Some (key, attempt, Some check) ->
     answered true script i0 ->
     completes (take k validators) i0 ∅ ik resk ->
     answered true ik i' ->
     settles attempt i' (Ok (Accepted v)) rest ->
     check v = Raise (CancelRegistration reason) ->
     main (mkState script res0) = (Ok (Cancelled reason), mkState rest resk)
     /\ resk !! key = None
     /\ reason = guard_message
     /\ reason <> default_message)
  /\ (forall n, _age_check (VInt n) = Raise (CancelRegistration guard_message)
                <-> n < 18)
  /\ (forall b, _citizen_check (VBool b) = Raise (CancelRegistration guard_message)
                <-> b = false).
Proof.
  split; [|split].
  - intros k key attempt check script res0 i0 ik resk i' v rest reason
      Hk A C A' Hv G.
    split; [|split; [|split]].
    + apply (main_stops k key attempt (Some check) script res0 i0 ik resk
               (CancelRegistration reason)); try assumption.
      rewrite step_body_eq. apply ask_continue_answered in A'. rewrite A'.
      rewrite (prompt_loop_settles attempt _ rest (Ok (Accepted v)));
        [|discriminate|assumption].
      now rewrite G.
    + destruct k as [|[|[|[|[|[|k]]]]]]; try discriminate Hk;
        injection Hk as <- _ _; cbn [take completes validators] in C.
      * destruct C as (? & ? & f & _ & _ & _ & ? & ? & l & _ & _ & _ & _ & <-).
        now simplify_map_eq.
      * destruct C as (? & ? & f & _ & _ & _ & ? & ? & l & _ & _ & _
                       & ? & ? & a & _ & _ & _ & _ & <-).
        now simplify_map_eq.
    + destruct k as [|[|[|[|[|[|k]]]]]]; try discriminate Hk;
        injection Hk as _ _ <-.
      * unfold _age_check, lt_18 in G.
        destruct v as [s|n|[]]; simpl in G; try destruct (n <? 18); congruence.
      * unfold _citizen_check in G. destruct (not_ v); congruence.
    + destruct k as [|[|[|[|[|[|k]]]]]]; try discriminate Hk;
        injection Hk as _ _ <-.
      * unfold _age_check, lt_18 in G.
        destruct v as [s|n|[]]; simpl in G; try destruct (n <? 18);
          try discriminate G; injection G as <-; discriminate.
      * unfold _citizen_check in G. destruct (not_ v); try discriminate G.
        injection G as <-. discriminate.
  - intros n. unfold _age_check, lt_18.
    destruct (n <? 18) eqn:E; split; try discriminate; try reflexivity; lia.
  - intros b. destruct b; unfold _citizen_check; simpl; split; intros H;
      try reflexivity; discriminate H.
Qed.

(** C5 at scenario C: names "Ann" and "Lee", then age "16". *)
Lemma guard_precedence_witness :
  main (mkState ["yes"; "yes"; "Ann"; "yes"; "Lee"; "yes"; "16"; "yes"] ∅)
  = (Ok (Cancelled guard_message),
     mkState ["yes"] {[ "first" := VStr "Ann"; "last" := VStr "Lee" ]})
  /\ ({[ "first" := VStr "Ann"; "last" := VStr "Lee" ]} : gmap string value)
     !! "age" = None
  /\ guard_message = guard_message
  /\ guard_message <> default_message.
Proof.
  refine (proj1 guard_precedence 2%nat "age" isValidAge_attempt _age_check
            ["yes"; "yes"; "Ann"; "yes"; "Lee"; "yes"; "16"; "yes"] ∅
            ["yes"; "Ann"; "yes"; "Lee"; "yes"; "16"; "yes"]
            ["yes"; "16"; "yes"]
            {[ "first" := VStr "Ann"; "last" := VStr "Lee" ]}
            ["16"; "yes"] (VInt 16) ["yes"] guard_message
            eq_refl _ _ _ _ eq_refl).
  - apply ask_continue_answered. reflexivity.
  - apply for_steps_completes. vm_compute. reflexivity.
  - apply ask_continue_answered. reflexivity.
  - exists [], "16". repeat split. constructor.
Defined.

(** [main] ends in [Completed] exactly when the first continuation question
    was answered yes and all six steps completed. *)
Lemma main_completed script res0 r st' :
  main (mkState script res0) = (Ok (Completed r), st')
  <-> exists i0,
        answered true script i0
        /\ completes validators i0 ∅ (stdin st') r
        /\ results st' = r.
Proof.
  split.
  - destruct (_ask_continue script) as [[yn|e] i0] eqn:A.
    + apply ask_continue_answered in A. rewrite (main_answered _ _ _ _ A).
      destruct yn; [|discriminate].
      destruct (for_steps steps (mkState i0 ∅)) as [[[]|e] [rest r1]] eqn:F.
      * cbn [results]. destruct (summary r1) as [lines|e].
        -- intros [= <- <-]. exists i0. cbn [stdin results].
           repeat split; [assumption|].
           now apply for_steps_completes.
        -- now destruct e.
      * now destruct e.
    + unfold main. rewrite main_try_eq, A. now destruct e.
  - intros (i0 & A & C & <-). rewrite (main_answered _ _ _ _ A).
    destruct (summary_ok _ _ _ _ C) as [lines S].
    apply for_steps_completes in C. rewrite <- steps_validators in C.
    rewrite C. cbn [results]. rewrite S. now destruct st'.
Qed.

(** C7 as stated fails on a script that runs out: the run ends in an
    uncaught [EOFError], neither [Completed] nor [Cancelled]. *)
Lemma run_out_of_input :
  run ["yes"; "yes"; "Ann"] = Raise EOFError
  /\ (forall o, run ["yes"; "yes"; "Ann"] <> Ok o).
Proof. split; [vm_compute; reflexivity|intros o; vm_compute; discriminate]. Qed.

(** C7, amended: a run over a finite script ends in exactly one of
    [Completed], [Cancelled] (with one of the three messages), or, when the
    script runs out at a prompt, an uncaught [EOFError]; this for scripts
    with no line that passes [isdigit] and that [int] rejects (a [ValueError]
    at the age prompt, left out here). [Completed] is produced exactly when
    the first continuation question and the one before each step were
    answered yes, the validator of each of the six steps returned [Accepted]
    after any number of [Retry], and each guard passed, in step order; the
    record then has an accepted value under each of the six keys. *)
Theorem run_ends script :
  (Forall convertible script ->
   exists o st',
     main (mkState script ∅) = (o, st')
     /\ ((exists r, o = Ok (Completed r))
         \/ (exists reason,
               o = Ok (Cancelled reason)
               /\ (reason = initial_message \/ reason = default_message
                   \/ reason = guard_message))
         \/ (o = Raise EOFError /\ stdin st' = [])))
  /\ (forall r st',
        main (mkState script ∅) = (Ok (Completed r), st')
        <-> exists i0,
              answered true script i0
              /\ completes validators i0 ∅ (stdin st') r
              /\ results st' = r)
  /\ (forall r st',
        main (mkState script ∅) = (Ok (Completed r), st') ->
        exists f l n s z,
          r = {[ "first" := f; "last" := l; "age" := VInt n;
                 "citizen" := VBool true; "state" := s; "zip" := z ]}
          /\ 18 <= n <= 120).
Proof.
  split; [|split].
  - intros Hfree.
    destruct (main (mkState script ∅)) as [o st'] eqn:E. exists o, st'.
    split; [reflexivity|]. revert E.
    destruct (_ask_continue script) as [[yn|e] i0] eqn:A.
    + apply ask_continue_answered in A. rewrite (main_answered _ _ _ _ A).
      destruct yn; [|intros [= <- <-]; right; left; eauto].
      destruct (for_steps steps (mkState i0 ∅)) as [r1 [rest r]] eqn:F.
      rewrite steps_validators in F.
      destruct (for_steps_outcome _ _ _ _ _ validators_well_behaved F)
        as [->|[[-> Hr]|[[-> Hn]|[->| ->]]]].
      * apply for_steps_completes in F. cbn [results].
        destruct (summary_ok _ _ _ _ F) as [lines ->].
        intros [= <- <-]. left. eauto.
      * intros [= <- <-]. right. right. now split.
      * exfalso. apply Hn. exact (answered_suffix _ _ _ _ A Hfree).
      * intros [= <- <-]. right. left. eauto 6.
      * intros [= <- <-]. right. left. eauto 6.
    + unfold main. rewrite main_try_eq, A.
      apply ask_continue_raise in A as [-> ->].
      intros [= <- <-]. right. right. now split.
  - intros r st'. apply main_completed.
  - intros r st' (i0 & _ & C & _)%main_completed.
    apply completes_record in C as (f & l & n & s & z & -> & Hn).
    exists f, l, n, s, z. split; [|assumption].
    apply map_eq. intros key.
    repeat (rewrite lookup_insert; case_decide; [|]); subst; simplify_map_eq;
      reflexivity.
Qed.

(** C7 at scenario A. *)
Lemma run_ends_witness :
  Forall convertible script_A
  /\ exists o st',
       main (mkState script_A ∅) = (o, st')
       /\ ((exists r, o = Ok (Completed r))
           \/ (exists reason,
                 o = Ok (Cancelled reason)
                 /\ (reason = initial_message \/ reason = default_message
                     \/ reason = guard_message))
           \/ (o = Raise EOFError /\ stdin st' = [])).
Proof.
  assert (F : Forall convertible script_A).
  { unfold script_A.
    repeat (apply Forall_cons; split); try (apply Forall_nil; exact I).
    all: intros [D I]; vm_compute in D, I; discriminate. }
  split; [exact F|]. exact (proj1 (run_ends script_A) F).
Defined.

(** C10: when [main] ends in [Completed], the record holds an age of at
    least 18 and the citizenship value [True]; the summary, whose
    citizenship line is the fixed text "U.S. Citizen: Yes", is then right
    about the stored value. *)
Theorem completed_is_eligible script res0 r st' :
  main (mkState script res0) = (Ok (Completed r), st') ->
  (exists n, r !! "age" = Some (VInt n) /\ 18 <= n)
  /\ r !! "citizen" = Some (VBool true)
  /\ exists lines, summary r = Ok lines /\ lines !! 2%nat = Some "U.S. Citizen: Yes".
Proof.
  intros (i0 & _ & C & _)%main_completed.
  apply completes_record in C as (f & l & n & s & z & -> & Hn).
  split; [|split].
  - exists n. split; [now simplify_map_eq|lia].
  - now simplify_map_eq.
  - unfold summary, getitem. simplify_map_eq. eexists. split; reflexivity.
Qed.

(** C10 at scenario A. *)
Lemma completed_is_eligible_witness :
  (exists n, record_A !! "age" = Some (VInt n) /\ 18 <= n)
  /\ record_A !! "citizen" = Some (VBool true)
  /\ exists lines,
       summary record_A = Ok lines /\ lines !! 2%nat = Some "U.S. Citizen: Yes".
Proof.
  apply (completed_is_eligible script_A ∅ record_A (mkState [] record_A)).
  vm_compute. reflexivity.
Defined.

(** C3 as stated fails on the cancellation tokens: "exit" is non-numeric
    text, and age validation returns [CancelRequested] for it, not [Retry]. *)
Lemma age_exit_is_not_retry :
  non_numeric "exit"
  /\ isValidAge_attempt "exit" = Ok CancelRequested
  /\ isValidAge_attempt "exit" <> Ok Retry.
Proof.
  split; [right; reflexivity|].
  split; [reflexivity|vm_compute; discriminate].
Qed.

(** The slip that the amended C3 leaves out: text that passes [isdigit] and
    that [int] rejects makes [isValidAge] raise [ValueError]. A superscript
    two is such a text, and so is 1 followed by 4300 zeros, the decimal
    string of 10^4300. *)
Example age_superscript_two :
  isValidAge_attempt (String "178" "") = Raise ValueError.
Proof. reflexivity. Qed.

Example age_beyond_limit :
  isValidAge_attempt (str (10 ^ 4300)) = Raise ValueError.
Proof. apply age_beyond. apply Z.le_refl. Qed.

(** C3, amended: for 0 <= n <= 120 age validation of the decimal string of
    [n] returns [Accepted n]; for n < 0, and for n > 120 with a decimal
    string of at most 4300 digits (n < 10^4300), it returns [Retry]; and for
    text that is
    no cancellation token and that [isdigit] does not pass - empty once
    trimmed, or with a character in it that is no digit - it returns
    [Retry]. On [Retry] the loop reads the next line. *)
Theorem age_validation :
  (forall n, 0 <= n <= 120 -> isValidAge_attempt (str n) = Ok (Accepted (VInt n)))
  /\ (forall n, n < 0 -> isValidAge_attempt (str n) = Ok Retry)
  /\ (forall n,
        120 < n -> n < 10 ^ 4300 -> isValidAge_attempt (str n) = Ok Retry)
  /\ (forall raw,
        ~ cancel_token raw -> isdigit (strip raw) = false ->
        isValidAge_attempt raw = Ok Retry)
  /\ (forall raw rest,
        isValidAge_attempt raw = Ok Retry ->
        isValidAge (raw :: rest) = isValidAge rest).
Proof.
  split; [|split; [|split; [|split]]].
  - intros n Hn. destruct (str_nonneg n) as (Hd & He & Hi); [lia|].
    pose proof (str_short n Hn) as Hl.
    rewrite (age_decimal _ n Hd He) by (unfold max_str_digits; lia || assumption).
    now replace ((0 <=? n) && (n <=? 120)) with true by lia.
  - intros n Hn.
    destruct (str_neg n Hn) as (t & -> & Ht).
    unfold isValidAge_attempt.
    assert (Hs : forall_chars (fun c => negb (isspace_char c)) (String "-" t) = true).
    { simpl. revert Ht. apply forall_chars_impl, decimal_not_space. }
    rewrite not_cancel_token by (reflexivity || assumption).
    now rewrite (strip_no_space _ Hs).
  - intros n Hn. assert (Hp : 0 <= n) by lia.
    intros Hl%(str_length n 4300); [|reflexivity|exact Hp].
    destruct (str_nonneg n Hp) as (Hd & He & Hi).
    rewrite (age_decimal _ n Hd He Hl Hi).
    now replace ((0 <=? n) && (n <=? 120)) with false by lia.
  - intros raw Hcancel D. unfold isValidAge_attempt.
    destruct (_exit_requested (strip raw)) eqn:X;
      [now apply exit_requested_spec in X|].
    now rewrite D.
  - intros raw rest H. unfold isValidAge. simpl. now rewrite H.
Qed.

(** C3 at 25, at -3, at 121 and at "abc". *)
Lemma age_validation_witness :
  isValidAge_attempt (str 25) = Ok (Accepted (VInt 25))
  /\ isValidAge_attempt (str (-3)) = Ok Retry
  /\ isValidAge_attempt (str 121) = Ok Retry
  /\ isValidAge_attempt "abc" = Ok Retry.
Proof.
  split; [|split; [|split]].
  - apply (proj1 age_validation 25). lia.
  - apply (proj1 (proj2 age_validation) (-3)). lia.
  - apply (proj1 (proj2 (proj2 age_validation)) 121); [lia|].
    vm_compute. reflexivity.
  - apply (proj1 (proj2 (proj2 (proj2 age_validation))) "abc").
    + intros [H|H]; discriminate H.
    + reflexivity.
Defined.

(** C4 as stated fails when the added character is whitespace at an outer
    end: "12345 " is "12345" with one character added to its digit segment,
    and ZIP validation trims it and returns [Accepted "12345"]. *)
Lemma zip_trailing_space_accepted :
  zip_mutant "12345 "
  /\ zipCode_attempt "12345 " = Ok (Accepted (VStr "12345"))
  /\ zipCode_attempt "12345 " <> Ok Retry.
Proof.
  split; [|split; [reflexivity|vm_compute; discriminate]].
  apply (mutant5 "12345"); [split; reflexivity|].
  exact (edit_add "12345" " " "").
Qed.

(** C4, amended: ZIP validation returns [Accepted] with the string itself
    for exactly 5 digits and for 5 digits, a hyphen and 4 digits. For such a
    string with one character removed from or added to a digit segment it
    returns [Retry], unless the result begins or ends with whitespace: the
    validator trims that away first, and what is left is then a valid ZIP,
    which it accepts. *)
Theorem zip_validation :
  (forall z, zip_shape z -> zipCode_attempt z = Ok (Accepted (VStr z)))
  /\ (forall z',
        zip_mutant z' -> strip z' = z' -> zipCode_attempt z' = Ok Retry)
  /\ (forall z',
        zip_mutant z' -> strip z' <> z' ->
        zip_shape (strip z')
        /\ zipCode_attempt z' = Ok (Accepted (VStr (strip z')))).
Proof.
  assert (Valid : forall z, zip_shape z ->
                    zipCode_attempt z = Ok (Accepted (VStr z))).
  { intros z Hz. unfold zipCode_attempt.
    pose proof (zip_shape_chars z Hz) as Hc.
    assert (Hs : forall_chars (fun c => negb (isspace_char c)) z = true)
      by (revert Hc; apply forall_chars_impl, zip_char_not_space).
    destruct z as [|c t];
      [destruct (zip_shape_length _ Hz); discriminate|].
    rewrite not_cancel_token;
      [|simpl in Hc; now apply andb_prop in Hc as [-> _]|assumption].
    rewrite (strip_no_space _ Hs).
    now apply zip_pat_shape in Hz as ->. }
  split; [exact Valid|]. split.
  - intros z' Hm Hs. unfold zipCode_attempt. rewrite Hs.
    destruct (zip_mutant_length _ Hm) as [[L5 L10] L4].
    assert (X : _exit_requested z' = false).
    { apply not_true_iff_false. rewrite <- Hs, exit_requested_spec.
      unfold cancel_token. rewrite Hs. intros H.
      assert (L : String.length z' = 4%nat)
        by (rewrite <- length_lower; destruct H as [-> | ->]; reflexivity).
      specialize (L4 L). rewrite (lower_decimal _ L4) in H.
      destruct H as [-> | ->]; discriminate L4. }
    rewrite X.
    destruct (fullmatch zip_pat z') eqn:F; [|reflexivity].
    apply zip_pat_shape, zip_shape_length in F as [F|F]; contradiction.
  - intros z' Hm Hs.
    destruct (zip_mutant_strip _ Hm) as [H|H]; [contradiction|].
    split; [exact H|].
    rewrite <- (Valid _ H). unfold zipCode_attempt. now rewrite strip_strip.
Qed.

(** C4 at "21201-1234" and at "2120-1234". *)
Lemma zip_validation_witness :
  zipCode_attempt "21201-1234" = Ok (Accepted (VStr "21201-1234"))
  /\ zipCode_attempt "2120-1234" = Ok Retry.
Proof.
  split.
  - apply (proj1 zip_validation).
    apply (zip9 "21201" "1234"); split; reflexivity.
  - apply (proj1 (proj2 zip_validation)); [|reflexivity].
    apply (mutant9_l "21201" "2120" "1234"); try (split; reflexivity).
    exact (edit_remove "2120" "1" "").
Defined.

End Claims.

(** * Further properties of the code *)

#[local] Set Warnings "-clear-no-such-hyp".

Section Coverage.

Import Str.

(** ** Names *)

Lemma lang_star_cls items s :
  lang (Star (Cls items)) s <-> forall_chars (in_class items) s = true.
Proof.
  split.
  - intros H. remember (Star (Cls items)) as r eqn:Er.
    induction H; try discriminate; [reflexivity|].
    injection Er as ->. specialize (IHlang2 eq_refl).
    inversion H; subst. simpl. now rewrite IHlang2, andb_true_r.
  - induction s as [|c s IH]; simpl; [constructor|].
    intros [Hc Hs]%andb_prop.
    apply (L_star_app (Cls items) (String c "") s); [now constructor|auto].
Qed.

Lemma name_pat_shape s : fullmatch name_pat s = true <-> name_shape s.
Proof.
  rewrite fullmatch_lang. unfold name_pat, name_shape. split.
  - intros H. inversion H as [| | |? ? a t Ha Ht| | | |]; subst.
    inversion Ht as [| | |? ? o e Ho He| | | |]; subst.
    inversion He; subst. rewrite append_empty_r.
    inversion Ha as [| |? c Hc| | | | |]; subst.
    apply lang_star_cls in Ho. exists c, o. split; [reflexivity|].
    split.
    + simpl in Hc. now rewrite orb_false_r in Hc.
    + revert Ho. apply forall_chars_impl. intros d Hd. simpl in Hd.
      rewrite orb_false_r in Hd. unfold name_char, is_letter.
      now rewrite <- !orb_assoc.
  - intros (c & t & -> & Hc & Ht).
    apply (L_seq _ _ (String c "") t).
    + constructor. simpl. now rewrite orb_false_r.
    + rewrite <- (append_empty_r t). apply L_seq; [|constructor].
      apply lang_star_cls. revert Ht. apply forall_chars_impl.
      intros d Hd. simpl. rewrite orb_false_r.
      unfold name_char, is_letter in Hd. now rewrite <- !orb_assoc in Hd.
Qed.

(** X1: [firstName] and [lastName] apply one rule. A line is accepted
    exactly when its trimmed text is a letter followed by letters, spaces,
    apostrophes and hyphens and is not a cancellation token; the value is
    the trimmed text. So an accepted name is never empty, never starts or
    ends with whitespace, and never contains a digit; and nobody can
    register under the name "Exit" or "Quit". *)
Theorem name_validation raw :
  lastName_attempt raw = firstName_attempt raw
  /\ (forall v,
        firstName_attempt raw = Ok (Accepted v)
        <-> v = VStr (strip raw) /\ name_shape (strip raw) /\ ~ cancel_token raw)
  /\ (forall s,
        firstName_attempt raw = Ok (Accepted (VStr s)) ->
        is_empty s = false /\ strip s = s
        /\ forall_chars (fun c => negb (isdecimal_char c)) s = true).
Proof.
  assert (A : forall v,
            firstName_attempt raw = Ok (Accepted v)
            <-> v = VStr (strip raw) /\ name_shape (strip raw) /\ ~ cancel_token raw).
  { intros v. unfold firstName_attempt. rewrite <- exit_requested_spec.
    destruct (_exit_requested (strip raw)).
    - split; [discriminate|]. intros (_ & _ & H). now destruct H.
    - destruct (fullmatch name_pat (strip raw)) eqn:F.
      + apply name_pat_shape in F. split.
        * intros [= <-]. repeat split; [assumption|discriminate].
        * now intros (-> & _ & _).
      + split; [discriminate|]. intros (_ & H%name_pat_shape & _). congruence. }
  split; [reflexivity|]. split; [exact A|].
  intros s (E & (c & t & Hs & Hc & Ht) & _)%A. injection E as ->.
  split; [now rewrite Hs|]. split; [apply strip_strip|].
  rewrite Hs. simpl. apply andb_true_intro. split.
  - revert Hc. clear. destruct c as [[] [] [] [] [] [] [] []]; vm_compute; congruence.
  - revert Ht. apply forall_chars_impl. clear. intros c.
    destruct c as [[] [] [] [] [] [] [] []]; vm_compute; congruence.
Qed.

(** ** States *)

Lemma elem_of_by_check (x : string) (l : list string) :
  existsb (String.eqb x) l = true -> x ∈ l.
Proof.
  intros (y & Hy & ->%String.eqb_eq)%existsb_exists. now apply list_elem_of_In.
Qed.

(** Every code of the table is two capitals, is accepted as it is, and no
    full name of the table is accepted. *)
Lemma table_check :
  forallb (fun s =>
             (String.length s =? 2)%nat && forall_chars is_capital s
             && negb (_exit_requested s)
             && accepted_as s (stateOfResidence_attempt s))
          (values stateOfResidenceHM) = true
  /\ forallb (fun s => is_retry (stateOfResidence_attempt s))
             (keys_of stateOfResidenceHM) = true
  /\ length (values stateOfResidenceHM) = 57%nat.
Proof. repeat split; vm_compute; reflexivity. Qed.

Lemma state_validation_table :
  (forall raw v,
     stateOfResidence_attempt raw = Ok (Accepted v)
     <-> v = VStr (upper (strip raw))
         /\ upper (strip raw) ∈ values stateOfResidenceHM).
Proof.
  destruct table_check as (V & _ & _). rewrite forallb_forall in V.
  intros raw v. unfold stateOfResidence_attempt.
  set (state := upper (strip raw)).
  destruct (bool_decide (state ∈ values stateOfResidenceHM)) eqn:M.
  - apply bool_decide_eq_true in M.
    pose proof (V state (proj1 (list_elem_of_In _ _) M)) as Hs.
    apply andb_prop in Hs as [[[L%Nat.eqb_eq _]%andb_prop X%negb_true_iff]%andb_prop _].
    rewrite X. unfold len. rewrite L. simpl. split.
    + intros [= <-]. split; [reflexivity|exact M].
    + intros [-> _]. reflexivity.
  - apply bool_decide_eq_false in M. rewrite andb_false_r.
    destruct (_exit_requested state); split; try discriminate;
      intros [_ H]; contradiction.
Qed.

(** X2: [stateOfResidence] accepts a line exactly when its trimmed,
    upper-cased text is one of the 57 codes of the table, and returns that
    code; the length test and the exit test never decide against a code. An
    accepted value is always two capital letters, and the full name of a
    state or territory ("Maryland") is never accepted. *)
Theorem state_validation :
  (forall raw v,
     stateOfResidence_attempt raw = Ok (Accepted v)
     <-> v = VStr (upper (strip raw))
         /\ upper (strip raw) ∈ values stateOfResidenceHM)
  /\ (forall raw s,
        stateOfResidence_attempt raw = Ok (Accepted (VStr s)) ->
        String.length s = 2%nat /\ forall_chars is_capital s = true)
  /\ (forall name,
        name ∈ keys_of stateOfResidenceHM ->
        stateOfResidence_attempt name = Ok Retry).
Proof.
  destruct table_check as (V & K & _).
  rewrite forallb_forall in V, K.
  split; [exact state_validation_table|]. split.
  - intros raw s [[= ->] M]%state_validation_table.
    pose proof (V _ (proj1 (list_elem_of_In _ _) M)) as Hs.
    apply andb_prop in Hs as [[[L%Nat.eqb_eq C]%andb_prop _]%andb_prop _].
    split; assumption.
  - intros name Hn%list_elem_of_In. apply K in Hn.
    now destruct (stateOfResidence_attempt name) as [[]|].
Qed.

(** X2 at " md " and at "Maryland". *)
Lemma state_validation_witness :
  (String.length "MD" = 2%nat /\ forall_chars is_capital "MD" = true)
  /\ stateOfResidence_attempt "Maryland" = Ok Retry.
Proof.
  split.
  - apply (proj1 (proj2 state_validation) " md " "MD"). reflexivity.
  - apply (proj2 (proj2 state_validation) "Maryland").
    apply elem_of_by_check. vm_compute. reflexivity.
Defined.

(** ** Validators as normalisers *)

Lemma accepted_is_strip (attempt : string -> Res ValidationOutcome) pat raw s :
  (forall line,
     attempt line =
     if _exit_requested (strip line) then Ok CancelRequested
     else if fullmatch pat (strip line) then Ok (Accepted (VStr (strip line)))
     else Ok Retry) ->
  attempt raw = Ok (Accepted (VStr s)) -> attempt s = Ok (Accepted (VStr s)).
Proof.
  intros E. rewrite !E.
  destruct (_exit_requested (strip raw)) eqn:X; [discriminate|].
  destruct (fullmatch pat (strip raw)) eqn:F; [|discriminate].
  intros [= <-]. now rewrite strip_strip, X, F.
Qed.

(** X3: every validator looks only at the trimmed line, so whitespace
    around an answer never matters; and a string value it accepts is
    accepted again, unchanged, when entered as it is. An accepted age,
    written out in decimal, is accepted again as the same number. *)
Theorem validators_normalise :
  Forall (fun '(_, attempt, _) =>
            forall raw : string, attempt (strip raw) = attempt raw) validators
  /\ Forall (fun '(_, attempt, _) =>
               forall raw s,
                 attempt raw = Ok (Accepted (VStr s)) ->
                 attempt s = Ok (Accepted (VStr s))) validators
  /\ (forall raw n,
        isValidAge_attempt raw = Ok (Accepted (VInt n)) ->
        isValidAge_attempt (str n) = Ok (Accepted (VInt n))).
Proof.
  split; [|split].
  - unfold validators. repeat (apply Forall_cons; split);
      try (apply Forall_nil; exact I).
    all: intros raw;
      cbv beta zeta delta
        [firstName_attempt lastName_attempt isValidAge_attempt
         countryOfCitizenship_attempt stateOfResidence_attempt zipCode_attempt];
      now rewrite strip_strip.
  - unfold validators. repeat (apply Forall_cons; split);
      try (apply Forall_nil; exact I).
    all: intros raw s.
    + now apply (accepted_is_strip _ name_pat).
    + now apply (accepted_is_strip _ name_pat).
    + now intros (n & [=] & _)%age_accepts.
    + now intros (b & [=])%citizen_accepts.
    + intros H. apply state_validation_table in H as [[= ->] M].
      destruct table_check as (V & _). rewrite forallb_forall in V.
      pose proof (V _ (proj1 (list_elem_of_In _ _) M)) as Hs.
      apply andb_prop in Hs as [_ Hs]. revert Hs. unfold accepted_as.
      destruct (stateOfResidence_attempt (upper (strip raw))) as [[[t| |]| |]|];
        try discriminate.
      now intros ->%String.eqb_eq.
    + now apply (accepted_is_strip _ zip_pat).
  - intros raw n (m & [= <-] & Hn)%age_accepts.
    destruct (str_nonneg n) as (Hd & He & Hi); [lia|].
    pose proof (str_short n Hn) as Hl.
    rewrite (age_decimal _ n Hd He) by (unfold max_str_digits; lia || assumption).
    now replace ((0 <=? n) && (n <=? 120)) with true by lia.
Qed.

(** X3 at " o'neil " and "007". *)
Lemma validators_normalise_witness :
  firstName_attempt "o'neil" = Ok (Accepted (VStr "o'neil"))
  /\ isValidAge_attempt (str 7) = Ok (Accepted (VInt 7)).
Proof.
  split.
  - refine (proj1 (Forall_cons_1 _ _ _ (proj1 (proj2 validators_normalise)))
              " o'neil " "o'neil" _).
    reflexivity.
  - refine (proj2 (proj2 validators_normalise) "007" 7 _). reflexivity.
Defined.

(** ** The age validator, case by case *)

Lemma digit_char_plain c :
  isdigit_char c = true ->
  negb (isspace_char c) = true
  /\ Ascii.eqb c "-" || Ascii.eqb c "+" = false
  /\ (isdecimal_char c = false -> Ascii.eqb c "_" = false).
Proof. destruct c as [[] [] [] [] [] [] [] []]; vm_compute; intuition congruence. Qed.

Lemma int_isdigit t :
  isdigit t = true -> int t = int_literal t.
Proof.
  intros [He Hd]%andb_prop. unfold int.
  rewrite int_strip_no_space
    by (revert Hd; apply forall_chars_impl; intros c Hc;
        now apply digit_char_plain in Hc).
  destruct t as [|c t]; [discriminate|].
  simpl in Hd. apply andb_prop in Hd as [Hc _].
  apply digit_char_plain in Hc as (_ & [-> ->]%orb_false_elim & _). reflexivity.
Qed.

Lemma int_digits_decimal t acc b n :
  forall_chars isdigit_char t = true ->
  int_digits t acc b = Some n -> forall_chars isdecimal_char t = true.
Proof.
  revert acc b. induction t as [|c t IH]; intros acc b; simpl; [reflexivity|].
  intros [Hc Ht]%andb_prop.
  destruct (isdecimal_char c) eqn:D; [now apply IH|].
  apply digit_char_plain in Hc as (_ & _ & Hu). rewrite (Hu D). discriminate.
Qed.

(** Text of digit characters is no cancellation token. *)
Lemma isdigit_no_token t : isdigit t = true -> _exit_requested t = false.
Proof.
  intros [He Hd]%andb_prop. destruct t as [|c t]; [discriminate|].
  assert (Hs : forall_chars (fun c => negb (isspace_char c)) (String c t) = true)
    by (revert Hd; apply forall_chars_impl; intros d Hc;
        now apply digit_char_plain in Hc).
  rewrite <- (strip_no_space _ Hs). apply not_true_iff_false.
  rewrite exit_requested_spec. unfold cancel_token.
  rewrite (strip_no_space _ Hs). simpl in Hd |- *.
  apply andb_prop in Hd as [Hc _].
  intros [[= E _]|[= E _]]; revert Hc E;
    destruct c as [[] [] [] [] [] [] [] []]; vm_compute; congruence.
Qed.

Lemma age_strip raw : isValidAge_attempt (strip raw) = isValidAge_attempt raw.
Proof. unfold isValidAge_attempt. now rewrite strip_strip. Qed.

(** X4: what [isValidAge] does with a line that, once trimmed, is a
    non-empty run of at most 4300 of the digits 0-9: it accepts it when the
    number the digits denote is at most 120, and returns that number, and
    asks again otherwise. Leading zeros and surrounding whitespace are
    accepted ("007" is 7). Conversely a line is accepted only if it is no
    cancellation token, its trimmed text consists of digit characters, and
    [int] converts that text to the returned number, which lies in 0..120;
    with a sign, an underscore or a decimal point a line is asked again. *)
Theorem age_acceptance :
  (forall raw,
     is_empty (strip raw) = false ->
     forall_chars isdecimal_char (strip raw) = true ->
     len (strip raw) <= 4300 ->
     isValidAge_attempt raw
     = Ok (if decimal_value (strip raw) <=? 120
           then Accepted (VInt (decimal_value (strip raw))) else Retry))
  /\ (forall raw v,
        isValidAge_attempt raw = Ok (Accepted v) ->
        exists n,
          v = VInt n /\ 0 <= n <= 120 /\ ~ cancel_token raw
          /\ isdigit (strip raw) = true /\ int (strip raw) = Some n)
  /\ (forall raw c,
        In c (list_ascii_of_string (strip raw)) ->
        c = "-"%char \/ c = "+"%char \/ c = "_"%char \/ c = "."%char ->
        ~ cancel_token raw ->
        isValidAge_attempt raw = Ok Retry).
Proof.
  split; [|split].
  - intros raw He Hd Hl. rewrite <- age_strip.
    pose proof (int_digits_value _ 0 Hd) as Hv.
    pose proof (value_of_nonneg _ 0 Hd ltac:(lia)) as Hp.
    fold (decimal_value (strip raw)) in Hv, Hp.
    rewrite (age_decimal _ _ Hd He Hl Hv).
    replace (0 <=? decimal_value (strip raw)) with true by lia.
    reflexivity.
  - intros raw v. unfold isValidAge_attempt.
    pose proof (exit_requested_spec raw) as XS.
    destruct (_exit_requested (strip raw)) eqn:X; [discriminate|].
    assert (NC : ~ cancel_token raw) by (rewrite <- XS; discriminate).
    destruct (isdigit (strip raw)) eqn:D; [|discriminate].
    destruct (int (strip raw)) as [n|]; [|discriminate].
    destruct ((0 <=? n) && (n <=? 120)) eqn:R; [|discriminate].
    intros [= <-]. exists n. repeat split; try assumption; lia.
  - intros raw c Hin Hc NC. unfold isValidAge_attempt.
    pose proof (exit_requested_spec raw) as XS.
    destruct (_exit_requested (strip raw)) eqn:X; [destruct NC; now apply XS|].
    destruct (isdigit (strip raw)) eqn:D; [|reflexivity].
    exfalso. apply andb_prop in D as [_ D]. revert Hin D.
    generalize (strip raw) as t. intros t.
    induction t as [|d t IH]; simpl; [tauto|].
    intros [->|Hin] [Hd Ht]%andb_prop; [|now apply IH].
    destruct Hc as [->|[->|[->| ->]]]; discriminate Hd.
Qed.

(** X4 at "007", at " 42 " and at "1.5". *)
Lemma age_acceptance_witness :
  isValidAge_attempt "007" = Ok (Accepted (VInt 7))
  /\ isValidAge_attempt " 42 " = Ok (Accepted (VInt 42))
  /\ isValidAge_attempt "1.5" = Ok Retry.
Proof.
  split; [|split].
  - apply (proj1 age_acceptance "007"); [reflexivity|reflexivity|].
    vm_compute. discriminate.
  - apply (proj1 age_acceptance " 42 "); [reflexivity|reflexivity|].
    vm_compute. discriminate.
  - apply (proj2 (proj2 age_acceptance) "1.5" "."%char).
    + simpl. tauto.
    + tauto.
    + intros [H|H]; discriminate H.
Defined.

Lemma decimal_not_superscript c :
  isdecimal_char c = true -> negb (superscript_char c) = true.
Proof. by_cases_on_char c. Qed.

(** X5: of the six validators only [isValidAge] can raise, only
    [ValueError], and exactly on a line whose trimmed text passes [isdigit]
    and is rejected by [int]. Two kinds of line do that: every run of more
    than 4300 of the digits 0-9, whatever number it denotes (so the decimal
    string of every n >= 10^4300), and every run of digit characters with a
    superscript two, three or one among them. The
    exception is not caught by [main]: at the age prompt such a line ends
    the run in [ValueError]. *)
Theorem validator_exceptions :
  (forall raw e,
     isValidAge_attempt raw = Raise e <-> e = ValueError /\ int_fails raw)
  /\ (forall raw,
        forall_chars isdecimal_char (strip raw) = true ->
        4300 < len (strip raw) ->
        isValidAge_attempt raw = Raise ValueError)
  /\ (forall n, 10 ^ 4300 <= n -> isValidAge_attempt (str n) = Raise ValueError)
  /\ (forall raw,
        isdigit (strip raw) = true -> ~ superscript_free (strip raw) ->
        isValidAge_attempt raw = Raise ValueError)
  /\ (forall raw e,
        firstName_attempt raw <> Raise e /\ lastName_attempt raw <> Raise e
        /\ countryOfCitizenship_attempt raw <> Raise e
        /\ stateOfResidence_attempt raw <> Raise e
        /\ zipCode_attempt raw <> Raise e)
  /\ (forall raw rest,
        isValidAge_attempt raw = Raise ValueError ->
        run ("yes" :: "yes" :: "Ann" :: "yes" :: "Lee" :: "yes" :: raw :: rest)
        = Raise ValueError).
Proof.
  assert (Fails : forall raw, int_fails raw -> isValidAge_attempt raw = Raise ValueError).
  { intros raw [D I]. unfold isValidAge_attempt.
    now rewrite (isdigit_no_token _ D), D, I. }
  split; [|split; [|split; [|split; [|split]]]].
  - intros raw e. split; [apply age_raises|].
    intros [-> F]. now apply Fails.
  - intros raw Hd Hl. rewrite <- age_strip. now apply age_too_long.
  - exact age_beyond.
  - intros raw D Hs. apply Fails. split; [exact D|].
    rewrite (int_isdigit _ D). unfold int_literal.
    destruct (max_str_digits <? count_digits (strip raw)); [reflexivity|].
    destruct (int_digits (strip raw) 0 false) as [n|] eqn:I; [|reflexivity].
    destruct Hs. apply andb_prop in D as [_ D].
    pose proof (int_digits_decimal _ _ _ _ D I) as Hdec.
    revert Hdec. apply forall_chars_impl, decimal_not_superscript.
  - intros raw e.
    cbv beta zeta delta
      [firstName_attempt lastName_attempt countryOfCitizenship_attempt
       stateOfResidence_attempt zipCode_attempt].
    repeat split; repeat case_match; discriminate.
  - intros raw rest H. unfold run.
    rewrite (main_stops 2 "age" isValidAge_attempt (Some _age_check)
               ("yes" :: "yes" :: "Ann" :: "yes" :: "Lee" :: "yes" :: raw :: rest) ∅
               ("yes" :: "Ann" :: "yes" :: "Lee" :: "yes" :: raw :: rest)
               ("yes" :: raw :: rest)
               (<["last" := VStr "Lee"]> (<["first" := VStr "Ann"]> ∅))
               ValueError
               (mkState rest (<["last" := VStr "Lee"]> (<["first" := VStr "Ann"]> ∅))));
      [reflexivity|reflexivity| | |].
    + apply ask_continue_answered. reflexivity.
    + apply for_steps_completes. vm_compute. reflexivity.
    + rewrite step_body_eq.
      change (_ask_continue ("yes" :: raw :: rest)) with (Ok true, raw :: rest).
      cbn [prompt_loop]. now rewrite H.
Qed.

(** X5 at a superscript two and at a 5 after 4300 zeros. *)
Lemma validator_exceptions_witness :
  isValidAge_attempt (String "178" "") = Raise ValueError
  /\ isValidAge_attempt (many_zeros ++ "5") = Raise ValueError
  /\ run ["yes"; "yes"; "Ann"; "yes"; "Lee"; "yes"; String "178" ""; "yes"]
     = Raise ValueError.
Proof.
  assert (H : isValidAge_attempt (String "178" "") = Raise ValueError).
  { apply (proj1 (proj2 (proj2 (proj2 validator_exceptions))) (String "178" ""));
      [reflexivity|]. vm_compute. discriminate. }
  split; [exact H|]. split.
  - apply (proj1 (proj2 validator_exceptions) (many_zeros ++ "5"));
      vm_compute; reflexivity.
  - exact (proj2 (proj2 (proj2 (proj2 (proj2 validator_exceptions))))
             (String "178" "") ["yes"] H).
Defined.

(** ** What a prompting loop reads *)

(** X6: a prompting function ([firstName], [lastName], [isValidAge],
    [countryOfCitizenship], [stateOfResidence], [zipCode]: each is
    [prompt_loop] around its validator) reads exactly up to the first line
    for which the validator does not say [Retry] and leaves the rest unread.
    It returns the value when that line is accepted, [None] when it is a
    cancellation, passes on an exception of the validator, and raises
    [EOFError] with nothing left when every line was rejected. *)
Theorem prompt_loop_reads attempt script :
  (forall v rest,
     prompt_loop attempt script = (Ok (Some v), rest)
     <-> settles attempt script (Ok (Accepted v)) rest)
  /\ (forall rest,
        prompt_loop attempt script = (Ok None, rest)
        <-> settles attempt script (Ok CancelRequested) rest)
  /\ (forall e rest,
        prompt_loop attempt script = (Raise e, rest)
        <-> settles attempt script (Raise e) rest
            \/ (e = EOFError /\ rest = []
                /\ Forall (fun l => attempt l = Ok Retry) script)).
Proof.
  assert (E : Forall (fun l => attempt l = Ok Retry) script ->
              prompt_loop attempt script = (Raise EOFError, [])).
  { induction 1 as [|l ls Hl _ IH]; simpl; [reflexivity|now rewrite Hl]. }
  split; [|split].
  - intros v rest. split.
    + intros [(? & _)|(out & Ho & Hs & Hr)]%prompt_loop_inv; [discriminate|].
      destruct out as [[]|]; try discriminate; congruence.
    + intros H.
      now rewrite (prompt_loop_settles attempt script rest (Ok (Accepted v))
                     ltac:(discriminate) H).
  - intros rest. split.
    + intros [(? & _)|(out & Ho & Hs & Hr)]%prompt_loop_inv; [discriminate|].
      destruct out as [[]|]; try discriminate; congruence.
    + intros H.
      now rewrite (prompt_loop_settles attempt script rest (Ok CancelRequested)
                     ltac:(discriminate) H).
  - intros e rest. split.
    + intros [([= ->] & -> & Hf)|(out & Ho & Hs & Hr)]%prompt_loop_inv; [now right|].
      destruct out as [[]|]; try discriminate; try congruence.
      left. congruence.
    + intros [H|(-> & -> & Hf)]; [|now apply E].
      now rewrite (prompt_loop_settles attempt script rest (Raise e)
                     ltac:(discriminate) H).
Qed.

(** ** The record during a run *)

(** The keys of a table of validators, in order. *)
Lemma for_steps_dom vs script res r st' :
  for_steps (steps_of vs) (mkState script res) = (r, st') ->
  exists k,
    (k <= length vs)%nat
    /\ dom (results st') = dom res ∪ list_to_set (take k (vs.*1.*1))
    /\ (r = Ok tt <-> k = length vs).
Proof.
  revert script res. induction vs as [|[[key attempt] guard] vs IH];
    intros script res; unfold steps_of; cbn [map].
  - simpl. unfold ret. intros [= <- <-]. exists 0%nat. simpl.
    split; [lia|]. split; [set_solver|tauto].
  - fold (steps_of vs). rewrite for_steps_cons, step_body_eq.
    assert (Stop : forall e i,
              (Raise e, mkState i res) = (r, st') ->
              exists k,
                (k <= length ((key, attempt, guard) :: vs))%nat
                /\ dom (results st')
                   = dom res ∪ list_to_set (take k (((key, attempt, guard) :: vs).*1.*1))
                /\ (r = Ok tt <-> k = length ((key, attempt, guard) :: vs))).
    { intros e i [= <- <-]. exists 0%nat. simpl. split; [lia|].
      split; [set_solver|]. split; [discriminate|lia]. }
    destruct (_ask_continue script) as [[[]|e] i1]; try (now apply Stop).
    destruct (prompt_loop attempt i1) as [[[v|]|e] i2]; try (now apply Stop).
    destruct (match guard with Some check => check v | None => Ok tt end)
      as [[]|e]; try (now apply Stop).
    intros (k & Hk & Hd & Hr)%IH. exists (S k). simpl. split; [lia|].
    split; [|rewrite Hr; lia].
    rewrite Hd, dom_insert_L. set_solver.
Qed.

(** X7: however a run ends, [results] holds exactly the keys of the first
    [k] steps, for some [k] from 0 to 6: a field is never stored unless all
    the fields before it were. All six keys are there exactly when the run
    ends in [Completed]. *)
Theorem results_prefix script :
  exists k,
    (k <= 6)%nat
    /\ dom (results (snd (main (mkState script ∅)))) = list_to_set (take k keys)
    /\ ((exists r, fst (main (mkState script ∅)) = Ok (Completed r)) <-> k = 6%nat).
Proof.
  destruct (_ask_continue script) as [[yn|e] i0] eqn:A.
  - apply ask_continue_answered in A. rewrite (main_answered _ _ _ _ A).
    destruct yn.
    + destruct (for_steps steps (mkState i0 ∅)) as [r st1] eqn:F.
      rewrite steps_validators in F.
      destruct (for_steps_dom _ _ _ _ _ F) as (k & Hk & Hd & Hr).
      exists k. split; [exact Hk|].
      assert (D : dom (results st1) = list_to_set (take k keys))
        by (rewrite Hd; change (validators.*1.*1) with keys; set_solver).
      destruct r as [[]|e].
      * destruct st1 as [rest r1]. apply for_steps_completes in F.
        cbn [results] in *. destruct (summary_ok _ _ _ _ F) as [lines ->].
        cbn [fst snd results]. split; [exact D|].
        split; [intros _; now apply Hr|eauto].
      * assert (N : k <> 6%nat) by (intros K; apply Hr in K; discriminate).
        destruct e; cbn [fst snd]; (split; [exact D|]);
          (split; [intros [r [=]]|contradiction]).
    + exists 0%nat. cbn [fst snd results]. split; [lia|]. split; [set_solver|].
      split; [intros [r [=]]|discriminate].
  - unfold main. rewrite main_try_eq, A.
    exists 0%nat. split; [lia|].
    destruct e; cbn [fst snd results];
      (split; [set_solver|]); (split; [intros [r [=]]|discriminate]).
Qed.

(** X8: declining a continuation question in mid-flow, after the first [k]
    steps completed, ends the run in [Cancelled] with the generic message;
    the input after the answer stays unread and the values collected so far
    stay in [results], which is dropped: nothing of it is printed. *)
Theorem decline_mid_flow k step script i0 ik resk rest :
  validators !! k = Some step ->
  answered true script i0 ->
  completes (take k validators) i0 ∅ ik resk ->
  answered false ik rest ->
  main (mkState script ∅) = (Ok (Cancelled default_message), mkState rest resk).
Proof.
  destruct step as [[key attempt] guard]. intros Hk A C D.
  apply (main_stops k key attempt guard script ∅ i0 ik resk
           (CancelRegistration default_message)); try assumption.
  rewrite step_body_eq. apply ask_continue_answered in D. now rewrite D.
Qed.

(** X8 after the first name: declining before the last name. *)
Lemma decline_mid_flow_witness :
  main (mkState ["yes"; "yes"; "Ann"; "maybe"; "n"; "Lee"] ∅)
  = (Ok (Cancelled default_message), mkState ["Lee"] {[ "first" := VStr "Ann" ]}).
Proof.
  refine (decline_mid_flow 1 ("last", lastName_attempt, None)
            ["yes"; "yes"; "Ann"; "maybe"; "n"; "Lee"]
            ["yes"; "Ann"; "maybe"; "n"; "Lee"] ["maybe"; "n"; "Lee"]
            {[ "first" := VStr "Ann" ]} ["Lee"] eq_refl _ _ _).
  - apply ask_continue_answered. reflexivity.
  - apply for_steps_completes. vm_compute. reflexivity.
  - apply ask_continue_answered. reflexivity.
Defined.

(** ** Longer scripts *)

Lemma ask_continue_more script more :
  _ask_continue (script ++ more) =
  match _ask_continue script with
  | (Ok yn, rest) => (Ok yn, (rest ++ more)%list)
  | (Raise _, _) => _ask_continue more
  end.
Proof.
  induction script as [|line script IH]; simpl; [reflexivity|].
  now destruct (_yes_no (strip line)).
Qed.

Lemma prompt_loop_more attempt script more :
  prompt_loop attempt (script ++ more) =
  if forallb (fun l => is_retry (attempt l)) script
  then prompt_loop attempt more
  else (fst (prompt_loop attempt script),
        (snd (prompt_loop attempt script) ++ more)%list).
Proof.
  induction script as [|line script IH]; simpl; [reflexivity|].
  destruct (attempt line) as [[v| |]|e]; simpl; try reflexivity. exact IH.
Qed.

Lemma prompt_loop_all_retry attempt script :
  forallb (fun l => is_retry (attempt l)) script = true ->
  prompt_loop attempt script = (Raise EOFError, []).
Proof.
  induction script as [|line script IH]; simpl; [reflexivity|].
  destruct (attempt line) as [[v| |]|e]; simpl; try discriminate. exact IH.
Qed.

Lemma prompt_loop_not_eof attempt script rest :
  (forall l e, attempt l = Raise e -> e = ValueError /\ int_fails l) ->
  forallb (fun l => is_retry (attempt l)) script = false ->
  prompt_loop attempt script <> (Raise EOFError, rest).
Proof.
  intros Hraise. induction script as [|line script IH]; simpl; [discriminate|].
  destruct (attempt line) as [[v| |]|e] eqn:E; simpl; try discriminate.
  - exact IH.
  - intros _ [= -> _]. now destruct (Hraise _ _ E).
Qed.

(** Lines after the end of the loop stay unread. *)
Lemma for_steps_more vs script res more r st' :
  Forall well_behaved vs ->
  for_steps (steps_of vs) (mkState script res) = (r, st') ->
  r <> Raise EOFError ->
  for_steps (steps_of vs) (mkState (script ++ more) res)
  = (r, mkState (stdin st' ++ more) (results st')).
Proof.
  intros Hvs. revert script res.
  induction Hvs as [|[[key attempt] guard] vs [Hraise Hguard] _ IH];
    intros script res; unfold steps_of; cbn [map].
  - simpl. unfold ret. now intros [= <- <-] _.
  - fold (steps_of vs). rewrite !for_steps_cons, !step_body_eq, ask_continue_more.
    destruct (_ask_continue script) as [[[]|e] i1] eqn:A.
    + rewrite prompt_loop_more.
      destruct (forallb (fun l => is_retry (attempt l)) i1) eqn:R.
      { rewrite (prompt_loop_all_retry _ _ R). now intros [= <- <-] N. }
      destruct (prompt_loop attempt i1) as [[[v|]|e] i2]; cbn [fst snd].
      * destruct (match guard with Some check => check v | None => Ok tt end)
          as [[]|e]; [now apply IH|now intros [= <- <-] _].
      * now intros [= <- <-] _.
      * now intros [= <- <-] _.
    + now intros [= <- <-] _.
    + apply ask_continue_raise in A as [-> ->]. now intros [= <- <-] N.
Qed.

(** A loop that ran out of input is cancelled by "exit" and "no". *)
Lemma for_steps_escape vs script res st' :
  Forall well_behaved vs ->
  Forall (fun '(_, attempt, _) => attempt "exit" = Ok CancelRequested) vs ->
  for_steps (steps_of vs) (mkState script res) = (Raise EOFError, st') ->
  exists st'',
    for_steps (steps_of vs) (mkState (script ++ ["exit"; "no"]) res)
    = (Raise (CancelRegistration default_message), st'').
Proof.
  intros Hvs. revert script res.
  induction Hvs as [|[[key attempt] guard] vs [Hraise Hguard] _ IH];
    intros script res Hexit; unfold steps_of; cbn [map].
  - simpl. unfold ret. discriminate.
  - apply Forall_cons in Hexit as [Hx Hexit].
    fold (steps_of vs). rewrite !for_steps_cons, !step_body_eq, ask_continue_more.
    destruct (_ask_continue script) as [[[]|e] i1] eqn:A.
    + rewrite prompt_loop_more.
      destruct (forallb (fun l => is_retry (attempt l)) i1) eqn:R.
      { intros _. cbn [prompt_loop]. rewrite Hx. eauto. }
      pose proof (prompt_loop_not_eof attempt i1) as NE.
      destruct (prompt_loop attempt i1) as [[[v|]|e] i2] eqn:P; cbn [fst snd].
      * apply prompt_loop_inv in P as [(? & _)|(out & Ho & Hs & E)]; [discriminate|].
        destruct Hs as (retries & line & _ & _ & Hl).
        destruct out as [[w| |]|]; try discriminate. injection E as ->.
        specialize (Hguard _ _ Hl). destruct guard as [check|].
        -- destruct Hguard as [->| ->]; [now apply IH|discriminate].
        -- now apply IH.
      * discriminate.
      * intros [= -> _]. now destruct (NE i2 Hraise R).
    + discriminate.
    + intros _. cbn [_ask_continue].
      change (_yes_no (strip "exit")) with (@None bool).
      change (_yes_no (strip "no")) with (Some false). cbv iota. eauto.
Qed.

(** X9: input beyond the end of a run is never read: when a run ends in an
    outcome (or in the [ValueError] of the age prompt), the same script with
    any lines appended ends the same way and leaves those lines unread. And
    a run that stopped for lack of input can always be ended cleanly:
    followed by "exit" and "no" the script ends in [Cancelled], whichever
    prompt was waiting. *)
Theorem script_extension script :
  (forall o st' more,
     main (mkState script ∅) = (o, st') -> o <> Raise EOFError ->
     main (mkState (script ++ more) ∅)
     = (o, mkState (stdin st' ++ more) (results st')))
  /\ (forall st',
        main (mkState script ∅) = (Raise EOFError, st') ->
        exists reason st'',
          main (mkState (script ++ ["exit"; "no"]) ∅) = (Ok (Cancelled reason), st'')
          /\ (reason = initial_message \/ reason = default_message)).
Proof.
  assert (X : Forall (fun '(_, attempt, _) => attempt "exit" = Ok CancelRequested)
                validators) by (repeat constructor).
  split.
  - intros o st' more. unfold main. rewrite !main_try_eq, ask_continue_more.
    destruct (_ask_continue script) as [[[]|e] i0] eqn:A.
    + destruct (for_steps steps (mkState i0 ∅)) as [r st1] eqn:F.
      rewrite steps_validators in *.
      destruct r as [[]|e].
      * rewrite (for_steps_more _ _ _ more _ _ validators_well_behaved F)
          by discriminate.
        cbn [results]. destruct (summary (results st1)) as [lines|e].
        -- now intros [= <- <-] _.
        -- destruct e; now intros [= <- <-] _.
      * destruct e; try (now intros [= <- <-] N);
          rewrite (for_steps_more _ _ _ more _ _ validators_well_behaved F)
            by discriminate;
          now intros [= <- <-] _.
    + now intros [= <- <-] _.
    + apply ask_continue_raise in A as [-> ->]. now intros [= <- <-] N.
  - intros st'. unfold main. rewrite !main_try_eq, ask_continue_more.
    destruct (_ask_continue script) as [[[]|e] i0] eqn:A.
    + destruct (for_steps steps (mkState i0 ∅)) as [r st1] eqn:F.
      rewrite steps_validators in *.
      destruct r as [[]|e].
      * destruct st1 as [rest r1]. cbn [results].
        apply for_steps_completes, summary_ok in F as [lines ->].
        discriminate.
      * destruct e; try discriminate. intros _.
        destruct (for_steps_escape _ _ _ _ validators_well_behaved X F)
          as [st'' ->].
        eauto.
    + discriminate.
    + intros _. cbn [_ask_continue].
      change (_yes_no (strip "exit")) with (@None bool).
      change (_yes_no (strip "no")) with (Some false). cbv iota. eauto.
Qed.

(** X9 at a script that stops at the age prompt. *)
Lemma script_extension_witness :
  main (mkState (["no"] ++ ["Ann"]) ∅)
  = (Ok (Cancelled initial_message), mkState ([] ++ ["Ann"]) ∅)
  /\ exists reason st'',
       main (mkState (["yes"; "yes"; "Ann"; "yes"; "Lee"; "yes"] ++ ["exit"; "no"]) ∅)
       = (Ok (Cancelled reason), st'')
       /\ (reason = initial_message \/ reason = default_message).
Proof.
  split.
  - refine (proj1 (script_extension ["no"]) (Ok (Cancelled initial_message))
              (mkState [] ∅) ["Ann"] eq_refl _).
    discriminate.
  - refine (proj2 (script_extension ["yes"; "yes"; "Ann"; "yes"; "Lee"; "yes"])
              (mkState [] {[ "last" := VStr "Lee"; "first" := VStr "Ann" ]}) _).
    vm_compute. reflexivity.
Defined.

End Coverage.

(** * Properties of the menu program *)

Section MenuFacts.

Import Str Menu.

Lemma raw_value_quits value :
  _raw_value value = Raise SystemExit <-> quits value.
Proof.
  unfold _raw_value, quits.
  destruct (bool_decide (lower value ∈ ["q"; "quit"; "exit"])) eqn:B.
  - apply bool_decide_eq_true in B. split; [intros _|reflexivity].
    set_solver.
  - apply bool_decide_eq_false in B. split; [discriminate|].
    intros H. destruct B. set_solver.
Qed.

Lemma raw_value_cases value :
  (quits value /\ _raw_value value = Raise SystemExit)
  \/ (~ quits value /\ _raw_value value = Ok value).
Proof.
  destruct (_raw_value value) as [text|e] eqn:E.
  - right. split.
    + intros Q%raw_value_quits. congruence.
    + unfold _raw_value in *. now case_match.
  - left. unfold _raw_value in E. case_match; [|discriminate].
    injection E as <-. split; [|reflexivity].
    apply raw_value_quits. unfold _raw_value. now rewrite H.
Qed.

Lemma yn_step value rest :
  _yn (value :: rest) =
  match _raw_value value with
  | Raise e => (Raise e, rest)
  | Ok text =>
      if bool_decide (lower (strip text) ∈ ["y"; "n"])
      then (Ok (String.eqb (lower (strip text)) "y"), rest)
      else _yn rest
  end.
Proof. reflexivity. Qed.

(** X10: [_yn] returns on the first line that is "y" or "n" once trimmed
    and lower-cased, skipping every line that is neither; "yes" and "no" are
    not answers here. [_raw] tests for "q", "quit" and "exit" before any
    trimming: such a line ends the program with [SystemExit], but the same
    word with a blank around it does not, and is asked again like any other
    wrong answer. *)
Theorem yn_reads :
  (forall script b rest,
     _yn script = (Ok b, rest)
     <-> exists (skipped : list string) value,
           script = (skipped ++ value :: rest)%list
           /\ Forall asked_again skipped /\ answers_yn b value)
  /\ (forall value rest, quits value -> _yn (value :: rest) = (Raise SystemExit, rest))
  /\ (forall value rest,
        ~ quits value -> quits (strip value) -> _yn (value :: rest) = _yn rest)
  /\ (forall rest, _yn ("yes" :: rest) = _yn rest /\ _yn (" q" :: rest) = _yn rest).
Proof.
  assert (Again : forall value rest, asked_again value -> _yn (value :: rest) = _yn rest).
  { intros value rest (Q & Y & N). rewrite yn_step.
    destruct (raw_value_cases value) as [[? _]|[_ ->]]; [contradiction|].
    case_bool_decide as B; [|reflexivity]. set_solver. }
  assert (Ans : forall b value rest,
            answers_yn b value -> _yn (value :: rest) = (Ok b, rest)).
  { intros b value rest (Q & E). rewrite yn_step.
    destruct (raw_value_cases value) as [[? _]|[_ ->]]; [contradiction|].
    rewrite E. now destruct b. }
  split; [|split; [|split]].
  - intros script b rest. split.
    + revert b rest. induction script as [|value script IH]; intros b rest;
        [discriminate|].
      rewrite yn_step.
      destruct (raw_value_cases value) as [[_ ->]|[Q ->]]; [discriminate|].
      case_bool_decide as B.
      * intros [= <- <-]. exists [], value. split; [reflexivity|].
        split; [constructor|]. split; [exact Q|].
        assert (lower (strip value) = "y" \/ lower (strip value) = "n") as [-> | ->]
          by set_solver; reflexivity.
      * intros (skipped & v & -> & Hs & Hv)%IH.
        exists (value :: skipped), v. split; [reflexivity|]. split; [|exact Hv].
        constructor; [|exact Hs]. split; [exact Q|]. set_solver.
    + intros (skipped & value & -> & Hs & Hv).
      induction Hs as [|v l Hv' _ IH]; simpl app.
      * now apply Ans.
      * now rewrite (Again _ _ Hv').
  - intros value rest Q%raw_value_quits. rewrite yn_step. now rewrite Q.
  - intros value rest Q S. apply Again. split; [exact Q|].
    unfold quits in S. split; intros E; rewrite E in S;
      destruct S as [S|[S|S]]; discriminate S.
  - intros rest. split; reflexivity.
Qed.

(** X10 at "Q" and at " q ". *)
Lemma yn_reads_witness :
  _yn ["Q"; "y"] = (Raise SystemExit, ["y"])
  /\ _yn [" q "; "y"] = _yn ["y"].
Proof.
  split.
  - apply (proj1 (proj2 yn_reads) "Q" ["y"]). left. reflexivity.
  - apply (proj1 (proj2 (proj2 yn_reads)) " q " ["y"]).
    + intros [H|[H|H]]; discriminate H.
    + left. reflexivity.
Defined.




End MenuFacts.

(** * Properties of the password generator *)

Section GeneratorFacts.

Import Str Menu Generator.

Abbreviation chars := list_ascii_of_string.

Lemma chars_app (s t : string) : chars (s ++ t) = (chars s ++ chars t)%list.
Proof. induction s as [|c s IH]; simpl; [reflexivity|now rewrite IH]. Qed.

Lemma length_of_chars (l : list ascii) :
  String.length (string_of_list_ascii l) = length l.
Proof. induction l as [|c l IH]; simpl; [reflexivity|now rewrite IH]. Qed.

Lemma get_lt s k :
  (k < String.length s)%nat ->
  exists c, String.get k s = Some c /\ In c (chars s).
Proof.
  revert k. induction s as [|d s IH]; intros k; simpl; [lia|].
  destruct k as [|k]; [intros _; exists d; auto|].
  intros H. destruct (IH k) as (c & Hc & Hi); [lia|]. exists c. auto.
Qed.

Lemma choice_ok seq g :
  is_empty seq = false ->
  exists c, choice seq g = (Ok c, fun i => g (S i)) /\ In c (chars seq).
Proof.
  intros He. unfold choice, randbelow.
  destruct (get_lt seq (Nat.modulo (g O) (String.length seq))) as (c & -> & Hc).
  - apply Nat.mod_upper_bound. destruct seq; [discriminate|]. simpl. lia.
  - now exists c.
Qed.

(** One of the four [if use_...: password.append(random.choice(...))]. *)
Lemma pick_ok (use : bool) seq password g :
  is_empty seq = false ->
  exists picks g',
    (if use then append_choice seq (Ok password, g) else (Ok password, g))
    = (Ok (password ++ picks)%list, g')
    /\ length picks = (if use then 1 else 0)%nat
    /\ Forall (fun c => In c (chars seq)) picks.
Proof.
  intros He. destruct use.
  - destruct (choice_ok seq g He) as (c & E & Hc). simpl. rewrite E.
    exists [c]. eexists. repeat split. now constructor.
  - exists []. exists g. rewrite app_nil_r. repeat split. constructor.
Qed.

Lemma fill_ok n all_chars password g :
  is_empty all_chars = false ->
  exists extra g',
    fill n all_chars (Ok password, g) = (Ok (password ++ extra)%list, g')
    /\ length extra = n
    /\ Forall (fun c => In c (chars all_chars)) extra.
Proof.
  intros He. revert password g. induction n as [|n IH]; intros password g; simpl.
  - exists []. exists g. rewrite app_nil_r. repeat split. constructor.
  - destruct (choice_ok all_chars g He) as (c & -> & Hc).
    destruct (IH (password ++ [c])%list (fun i => g (S i)))
      as (extra & g' & -> & Hl & Hf).
    exists (c :: extra), g'. rewrite <- app_assoc. simpl.
    repeat split; [now rewrite Hl|now constructor].
Qed.

Lemma replace_perm (x : list ascii) j a b :
  x !! j = Some b -> (b :: <[j := a]> x) ≡ₚ (a :: x).
Proof.
  revert j. induction x as [|d x IH]; intros j; [discriminate|].
  destruct j as [|j]; simpl.
  - intros [= ->]. apply perm_swap.
  - intros H. rewrite (perm_swap d b), (IH _ H). apply perm_swap.
Qed.

Lemma swap_perm i j (x : list ascii) : swap i j x ≡ₚ x.
Proof.
  revert i j. induction x as [|d x IH]; intros i j; [now destruct i, j|].
  unfold swap. destruct i as [|i], j as [|j]; simpl.
  - reflexivity.
  - destruct (x !! j) as [b|] eqn:E; [|reflexivity]. simpl.
    now apply replace_perm.
  - destruct (x !! i) as [a|] eqn:E; [|reflexivity]. simpl.
    now apply replace_perm.
  - specialize (IH i j). unfold swap in IH.
    destruct (x !! i) as [a|]; [|reflexivity].
    destruct (x !! j) as [b|]; [|reflexivity].
    simpl. now rewrite IH.
Qed.

(** [random.shuffle] rearranges: nothing is lost, nothing added. *)
Lemma shuffle_perm x g : fst (shuffle x g) ≡ₚ x.
Proof.
  unfold shuffle. generalize (length x - 1)%nat as i. intros i.
  revert x g. induction i as [|i IH]; intros x g; [reflexivity|].
  cbn [shuffle_from]. unfold randbelow. rewrite IH. apply swap_perm.
Qed.

Lemma is_empty_if (use : bool) (s : string) :
  is_empty s = false -> is_empty (if use then s else "") = negb use.
Proof. now destruct use. Qed.

Lemma is_empty_app (s t : string) : is_empty (s ++ t) = is_empty s && is_empty t.
Proof. now destruct s. Qed.

(** With a length of 8 or more and a set selected, a password comes out. *)
Lemma generate_password_ok (length : Z)
    (use_upper use_lower use_digits use_special : bool) (g : rng) :
  8 <= length -> use_upper || use_lower || use_digits || use_special = true ->
  exists password,
    fst (generate_password length use_upper use_lower use_digits use_special g)
    = Ok password
    /\ String.length password = Z.to_nat length
    /\ (forall c, In c (chars password) ->
        In c (chars ((if use_lower then ascii_lowercase else "")
                     ++ (if use_upper then ascii_uppercase else "")
                     ++ (if use_digits then digits else "")
                     ++ (if use_special then punctuation else ""))))
    /\ (use_lower = true ->
        exists c, In c (chars password) /\ In c (chars ascii_lowercase))
    /\ (use_upper = true ->
        exists c, In c (chars password) /\ In c (chars ascii_uppercase))
    /\ (use_digits = true ->
        exists c, In c (chars password) /\ In c (chars digits))
    /\ (use_special = true ->
        exists c, In c (chars password) /\ In c (chars punctuation)).
Proof.
  set (selected :=
    (if use_lower then ascii_lowercase else "")
    ++ (if use_upper then ascii_uppercase else "")
    ++ (if use_digits then digits else "")
    ++ (if use_special then punctuation else "")).
  unfold generate_password.
  intros H T. replace (length <? 8) with false by lia.
  rewrite !is_empty_if by reflexivity.
  replace (negb use_lower && negb use_upper && negb use_digits && negb use_special)
    with false
    by (destruct use_upper, use_lower, use_digits, use_special;
        try reflexivity; discriminate).
  cbv zeta.
  destruct (pick_ok use_lower ascii_lowercase [] g eq_refl)
    as (p1 & g1 & E1 & L1 & F1). rewrite E1.
  destruct (pick_ok use_upper ascii_uppercase ([] ++ p1) g1 eq_refl)
    as (p2 & g2 & E2 & L2 & F2). rewrite E2.
  destruct (pick_ok use_digits digits (([] ++ p1) ++ p2) g2 eq_refl)
    as (p3 & g3 & E3 & L3 & F3). rewrite E3.
  destruct (pick_ok use_special punctuation ((([] ++ p1) ++ p2) ++ p3) g3 eq_refl)
    as (p4 & g4 & E4 & L4 & F4). rewrite E4.
  fold selected.
  assert (Sel : is_empty selected = false).
  { subst selected.
    destruct use_upper, use_lower, use_digits, use_special;
      try reflexivity; discriminate. }
  set (picked := (((([] ++ p1) ++ p2) ++ p3) ++ p4)%list).
  destruct (fill_ok (Z.to_nat (length - Z.of_nat (List.length picked)))
              selected picked g4 Sel) as (extra & g5 & -> & Le & Fe).
  destruct (shuffle (picked ++ extra) g5) as [shuffled g6] eqn:Sh.
  assert (P : shuffled ≡ₚ (picked ++ extra)%list).
  { pose proof (shuffle_perm (picked ++ extra) g5) as P. now rewrite Sh in P. }
  cbn [fst]. eexists. split; [reflexivity|].
  rewrite list_ascii_of_string_of_list_ascii, length_of_chars.
  assert (Lp : (List.length picked <= 4)%nat).
  { subst picked. rewrite !length_app, L1, L2, L3, L4. simpl.
    destruct use_upper, use_lower, use_digits, use_special; simpl; lia. }
  split; [|split; [|repeat split]].
  + rewrite (Permutation_length P), length_app, Le. lia.
  + intros c Hc%list_elem_of_In. rewrite P in Hc. apply list_elem_of_In in Hc.
    apply in_app_iff in Hc as [Hc|Hc];
      [|now apply (proj1 (List.Forall_forall _ _) Fe)].
    subst picked selected. rewrite !in_app_iff in Hc. rewrite !chars_app, !in_app_iff.
    destruct Hc as [[[[[]|Hc]|Hc]|Hc]|Hc].
    * destruct use_lower; [|now destruct p1].
      left. now apply (proj1 (List.Forall_forall _ _) F1).
    * destruct use_upper; [|now destruct p2].
      right. left. now apply (proj1 (List.Forall_forall _ _) F2).
    * destruct use_digits; [|now destruct p3].
      right. right. left. now apply (proj1 (List.Forall_forall _ _) F3).
    * destruct use_special; [|now destruct p4].
      right. right. right. now apply (proj1 (List.Forall_forall _ _) F4).
  + intros ->. destruct p1 as [|c p1]; [discriminate|]. exists c. split.
    * apply list_elem_of_In. rewrite P. subst picked. set_solver.
    * now apply Forall_cons in F1 as [? _].
  + intros ->. destruct p2 as [|c p2]; [discriminate|]. exists c. split.
    * apply list_elem_of_In. rewrite P. subst picked. set_solver.
    * now apply Forall_cons in F2 as [? _].
  + intros ->. destruct p3 as [|c p3]; [discriminate|]. exists c. split.
    * apply list_elem_of_In. rewrite P. subst picked. set_solver.
    * now apply Forall_cons in F3 as [? _].
  + intros ->. destruct p4 as [|c p4]; [discriminate|]. exists c. split.
    * apply list_elem_of_In. rewrite P. subst picked. set_solver.
    * now apply Forall_cons in F4 as [? _].
Qed.

(** X12: [generate_password] raises [ValueError] exactly when the length is
    below 8 or no character set is selected (the length is tested first).
    Otherwise, whatever the random source gives, it returns a password of
    exactly [length] characters, all of them from the selected sets, with at
    least one character from each selected set. *)
Theorem generate_password_contract (length : Z)
    (use_upper use_lower use_digits use_special : bool) (g : rng) :
  let selected :=
    (if use_lower then ascii_lowercase else "")
    ++ (if use_upper then ascii_uppercase else "")
    ++ (if use_digits then digits else "")
    ++ (if use_special then punctuation else "") in
  let result :=
    fst (generate_password length use_upper use_lower use_digits use_special g) in
  (length < 8 ->
   result = Raise (ValueError "Password length should be at least 8 characters."))
  /\ (8 <= length -> use_upper || use_lower || use_digits || use_special = false ->
      result = Raise (ValueError "At least one character set must be selected."))
  /\ (8 <= length -> use_upper || use_lower || use_digits || use_special = true ->
      exists password,
        result = Ok password
        /\ String.length password = Z.to_nat length
        /\ (forall c, In c (chars password) -> In c (chars selected))
        /\ (use_lower = true ->
            exists c, In c (chars password) /\ In c (chars ascii_lowercase))
        /\ (use_upper = true ->
            exists c, In c (chars password) /\ In c (chars ascii_uppercase))
        /\ (use_digits = true ->
            exists c, In c (chars password) /\ In c (chars digits))
        /\ (use_special = true ->
            exists c, In c (chars password) /\ In c (chars punctuation))).
Proof.
  intros selected result. subst result. unfold generate_password.
  split; [|split].
  - intros H. now replace (length <? 8) with true by lia.
  - intros H F. replace (length <? 8) with false by lia.
    destruct use_upper, use_lower, use_digits, use_special; try discriminate.
    reflexivity.
  - intros H T. now apply generate_password_ok.
Qed.

Example generate_password_examples :
  fst (generate_password 10 true true true true (fun i => (7 * i + 3)%nat))
  = Ok "dK7FTM%07]"
  /\ fst (generate_password 8 false false true false (fun i => (i * i)%nat))
     = Ok "49591660"
  /\ fst (shuffle (chars "abcd") (fun i => 0%nat)) = chars "bcda".
Proof. repeat split. Qed.

(** X12 for ten characters of capitals and digits. *)
Lemma generate_password_contract_witness :
  exists password,
    fst (generate_password 10 true false true false (fun i => (7 * i + 3)%nat))
    = Ok password
    /\ String.length password = 10%nat.
Proof.
  destruct (proj2 (proj2 (generate_password_contract 10 true false true false
                            (fun i => (7 * i + 3)%nat)))
              ltac:(lia) eq_refl)
    as (password & E & L & _).
  exists password. split; [exact E|exact L].
Defined.

End GeneratorFacts.

(** * Properties of the handler of option (a) *)

Section HandlerFacts.

Import Str Menu Generator Handlers.

(** What [_yn] can end in, and that an answer costs a line. *)
Lemma yn_ends inp :
  match _yn inp with
  | (Ok _, rest) => (List.length rest < List.length inp)%nat
  | (Raise e, _) => e = SystemExit \/ e = EOFError
  end.
Proof.
  induction inp as [|value inp IH]; [now right|].
  cbn [_yn]. unfold _raw_value. case_bool_decide; [now left|].
  case_bool_decide; [cbn [List.length]; lia|].
  destruct (_yn inp) as [[b|e] rest]; [cbn [List.length]; lia|exact IH].
Qed.

(** The same for [_num] with [int] and the minimum 8. *)
Lemma num_int_ends inp :
  match _num_int (Some 8) inp with
  | (Ok v, _) => 8 <= v
  | (Raise e, _) => e = SystemExit \/ e = EOFError
  end.
Proof.
  unfold _num_int.
  induction inp as [|value inp IH]; [now right|].
  cbn [_num]. unfold _raw_value. case_bool_decide; [now left|].
  destruct (int value) as [val|]; [|exact IH].
  destruct (val <? 8) eqn:L; [exact IH|lia].
Qed.

Lemma ask_sets_ends inp :
  match ask_sets inp with
  | (Ok _, rest) => (List.length rest < List.length inp)%nat
  | (Raise e, _) => e = SystemExit \/ e = EOFError
  end.
Proof.
  unfold ask_sets.
  pose proof (yn_ends inp) as H1.
  destruct (_yn inp) as [[b1|e] r1]; [|exact H1].
  pose proof (yn_ends r1) as H2.
  destruct (_yn r1) as [[b2|e] r2]; [|exact H2].
  pose proof (yn_ends r2) as H3.
  destruct (_yn r2) as [[b3|e] r3]; [|exact H3].
  pose proof (yn_ends r3) as H4.
  destruct (_yn r3) as [[b4|e] r4]; [|exact H4].
  lia.
Qed.

(** The loop ends within one round more than there are lines, and leaves
    with a set selected. *)
Lemma select_sets_ends fuel sets inp :
  (List.length inp < fuel)%nat ->
  exists res rest,
    select_sets fuel sets inp = Some (res, rest)
    /\ match res with
       | Ok (use_upper, use_lower, use_digits, use_special) =>
           use_upper || use_lower || use_digits || use_special = true
       | Raise e => e = SystemExit \/ e = EOFError
       end.
Proof.
  revert sets inp. induction fuel as [|fuel IH]; intros sets inp L; [lia|].
  destruct sets as [[[uu ul] ud] us]. cbn [select_sets].
  destruct (uu || ul || ud || us) eqn:Any; cbn [negb].
  - exists (Ok (uu, ul, ud, us)), inp. now split.
  - pose proof (ask_sets_ends inp) as A.
    destruct (ask_sets inp) as [[sets'|e] rest].
    + apply IH. lia.
    + exists (Raise e), rest. now split.
Qed.

(** X13: option (a) never shows one of the generator's errors. On every
    input [_handle_password] comes to an end, the loop over the four
    questions included, and it ends in one of three ways: a password of at
    least 8 characters is printed, the user quit at a prompt ([SystemExit]),
    or the input ran out ([EOFError]). The [ValueError]s of
    [generate_password] for a short length or for no character set cannot
    occur here, because [_num] asks again below 8 and the loop asks again
    until a set is selected. *)
Theorem handle_password_safe (g : rng) (inp : list string) :
  exists printed rest g',
    _handle_password g inp = Some (printed, rest, g')
    /\ (printed = Raise SystemExit \/ printed = Raise EOFError
        \/ exists password,
             printed = Ok password /\ (8 <= String.length password)%nat).
Proof.
  unfold _handle_password.
  pose proof (num_int_ends inp) as N.
  destruct (_num_int (Some 8) inp) as [[length|e] r0].
  2: { exists (Raise e), r0, g. split; [reflexivity|].
       destruct N as [-> | ->]; tauto. }
  pose proof (ask_sets_ends r0) as A.
  destruct (ask_sets r0) as [[sets|e] r1].
  2: { exists (Raise e), r1, g. split; [reflexivity|].
       destruct A as [-> | ->]; tauto. }
  destruct (select_sets_ends (S (List.length r1)) sets r1 ltac:(lia))
    as (res & r2 & -> & R).
  destruct res as [[[[uu ul] ud] us]|e].
  2: { exists (Raise e), r2, g. split; [reflexivity|].
       destruct R as [-> | ->]; tauto. }
  destruct (generate_password_ok length uu ul ud us g N R)
    as (password & E & L & _).
  destruct (generate_password length uu ul ud us g) as [printed g'].
  cbn [fst] in E. subst printed.
  exists (Ok password), r2, g'. split; [reflexivity|].
  right. right. exists password. split; [reflexivity|]. lia.
Qed.

(** A session at option (a): a length below 8 and a word are asked again,
    four times "n" makes the four questions come back, and then a password of
    the length asked for is printed, here of capitals and digits. *)
Example handle_password_example :
  option_map (fun r => (fst (fst r), snd (fst r)))
    (_handle_password (fun i => (7 * i + 3)%nat)
       ["5"; "ten"; "10"; "n"; "n"; "n"; "n"; "y"; "maybe"; "N"; "y"; "no"; "n";
        "next"])
  = Some (Ok "D0R5JC4QXY", ["next"])
  /\ option_map (fun r => fst (fst r))
       (_handle_password (fun i => i) ["12"; "y"; "y"; "Quit"; "y"])
     = Some (Raise SystemExit)
  /\ option_map (fun r => fst (fst r))
       (_handle_password (fun i => i) ["12"; "n"; "n"; "n"; "n"])
     = Some (Raise EOFError).
Proof. vm_compute. repeat split. Qed.

End HandlerFacts.

(** * Properties of the days of option (c) *)

Section DaysFacts.

Import Days.

(** The fields of a valid [datetime] are in range. *)
Lemma valid_ranges t :
  valid t = true ->
  1 <= year t <= 9999 /\ 1 <= month t <= 12
  /\ 1 <= day t <= _days_in_month (year t) (month t)
  /\ 0 <= hour t < 24 /\ 0 <= minute t < 60 /\ 0 <= second t < 60
  /\ 0 <= microsecond t < 1000000.
Proof.
  unfold valid. rewrite !andb_true_iff. lia.
Qed.

(** The days of the subtraction: the calendar days, less one when a part of
    a day has to be borrowed. *)
Lemma sub_days t :
  valid t = true ->
  days (sub (mkDatetime 2025 7 4 0 0 0 0) t)
  = calendar_days t - (if at_midnight t then 0 else 1).
Proof.
  intros (_ & _ & _ & Hh & Hm & Hs & Hu)%valid_ranges.
  unfold sub, new_timedelta, calendar_days, at_midnight.
  cbn [days hour minute second microsecond].
  set (D := toordinal _ - toordinal t).
  destruct (hour t =? 0) eqn:Eh, (minute t =? 0) eqn:Em, (second t =? 0) eqn:Es,
    (microsecond t =? 0) eqn:Eu; cbn [andb];
    Z.div_mod_to_equations; lia.
Qed.

Ltac table_lookup :=
  repeat match goal with
  | |- context [nth ?n ?l ?d] =>
      let v := eval vm_compute in (nth n l d) in change (nth n l d) with v
  | H : context [nth ?n ?l ?d] |- _ =>
      let v := eval vm_compute in (nth n l d) in change (nth n l d) with v in H
  end.

Lemma month_cases m :
  1 <= m <= 12 ->
  m = 1 \/ m = 2 \/ m = 3 \/ m = 4 \/ m = 5 \/ m = 6 \/ m = 7 \/ m = 8 \/ m = 9
  \/ m = 10 \/ m = 11 \/ m = 12.
Proof. lia. Qed.

(** A date lies within its year. *)
Lemma day_of_year y m d :
  1 <= m <= 12 -> 1 <= d <= _days_in_month y m ->
  1 <= _days_before_month y m + d <= 366.
Proof.
  intros Hm Hd. unfold _days_before_month, _days_in_month in *.
  destruct (_is_leap y);
    destruct (month_cases m Hm) as [->|[->|[->|[->|[->|[->|[->|[->|[->|[->|[->| ->]]]]]]]]]]];
    table_lookup; cbn in *; lia.
Qed.

(** Dates of other years than 2025 lie on their side of July 3, 2025. *)
Lemma ordinal_other_year t :
  valid t = true ->
  (year t < 2025 -> calendar_days t > 1)
  /\ (2025 < year t -> calendar_days t < 0).
Proof.
  intros (Hy & Hm & Hd & _)%valid_ranges.
  pose proof (day_of_year _ _ _ Hm Hd) as Hdoy.
  unfold calendar_days, toordinal, _ymd2ord. cbn [year month day].
  set (doy := _days_before_month (year t) (month t) + day t) in *.
  replace (_days_before_year (year t) + _days_before_month (year t) (month t) + day t)
    with (_days_before_year (year t) + doy) by (unfold doy; lia).
  change (_days_before_year 2025 + _days_before_month 2025 7 + 4) with 739436.
  unfold _days_before_year.
  split; intros L; Z.div_mod_to_equations; lia.
Qed.

(** Within 2025 the calendar days follow month and day. *)
Lemma ordinal_2025 t :
  valid t = true -> year t = 2025 ->
  (calendar_days t <= 0 <-> 7 < month t \/ (month t = 7 /\ 4 <= day t))
  /\ (calendar_days t = 1 <-> month t = 7 /\ day t = 3).
Proof.
  intros (Hy & Hm & Hd & _)%valid_ranges Y.
  unfold calendar_days, toordinal, _ymd2ord. cbn [year month day].
  rewrite Y in *.
  change (_days_before_year 2025 + _days_before_month 2025 7 + 4) with 739436.
  change (_days_before_year 2025) with 739251.
  unfold _days_before_month, _days_in_month in *.
  change (_is_leap 2025) with false in *.
  destruct (month_cases _ Hm) as [E|[E|[E|[E|[E|[E|[E|[E|[E|[E|[E|E]]]]]]]]]]];
    rewrite E in *; table_lookup; cbn in *; lia.
Qed.

Lemma earlier_july_three t :
  earlier (mkDatetime 2025 7 3 0 0 0 0) t = true
  <-> 2025 < year t
      \/ (year t = 2025
          /\ (7 < month t
              \/ (month t = 7
                  /\ (3 < day t
                      \/ (day t = 3
                          /\ (0 < hour t
                              \/ (hour t = 0
                                  /\ (0 < minute t
                                      \/ (minute t = 0
                                          /\ (0 < second t
                                              \/ (second t = 0
                                                  /\ 0 < microsecond t))))))))))).
Proof.
  unfold earlier, fields. cbn [lex_lt year month day hour minute second microsecond].
  rewrite !orb_true_iff, !andb_true_iff, !orb_true_iff, !andb_true_iff.
  rewrite ?orb_true_iff, ?andb_true_iff, ?orb_false_r.
  rewrite ?orb_true_iff, ?andb_true_iff.
  rewrite !Z.ltb_lt, !Z.eqb_eq.
  intuition lia.
Qed.

(** Some time of day has passed exactly when it is not midnight. *)
Lemma past_midnight t :
  valid t = true ->
  at_midnight t = false
  <-> 0 < hour t
      \/ (hour t = 0
          /\ (0 < minute t
              \/ (minute t = 0
                  /\ (0 < second t \/ (second t = 0 /\ 0 < microsecond t))))).
Proof.
  intros (_ & _ & _ & Hh & Hm & Hs & Hu)%valid_ranges.
  unfold at_midnight.
  rewrite !andb_false_iff, !Z.eqb_neq. lia.
Qed.

(** X14: [days_until_july_four] counts full days of 24 hours, not calendar
    days. At midnight sharp it returns the number of calendar days to
    July 4, 2025; at any later time of the day one less, and never less than
    0. So it returns 0 from the first microsecond after midnight of
    July 3, 2025 on - during all of July 3 the answer is already "0 days" -
    and a positive number at every moment up to that midnight. [now] is what
    [datetime.now()] returned, any valid naive [datetime]. *)
Theorem days_until_counts_full_days (now : datetime) :
  valid now = true ->
  days_until_july_four now
  = Z.max 0 (calendar_days now - (if at_midnight now then 0 else 1))
  /\ (days_until_july_four now = 0
      <-> earlier (mkDatetime 2025 7 3 0 0 0 0) now = true).
Proof.
  intros V.
  assert (F : days_until_july_four now
              = Z.max 0 (calendar_days now - (if at_midnight now then 0 else 1))).
  { unfold days_until_july_four. cbv zeta. rewrite (sub_days _ V).
    destruct (_ >? 0) eqn:G; lia. }
  split; [exact F|].
  rewrite F, earlier_july_three.
  pose proof (ordinal_other_year _ V) as [Before After].
  pose proof (ordinal_2025 _ V) as In2025.
  pose proof (past_midnight _ V) as Past.
  clear F V.
  set (past := 0 < hour now \/ _) in *. clearbody past.
  destruct (at_midnight now).
  - assert (~ past) by (intros P; apply Past in P; discriminate).
    enough (Z.max 0 (calendar_days now - 0) = 0
            <-> 2025 < year now
                \/ (year now = 2025
                    /\ (7 < month now \/ (month now = 7 /\ 3 < day now))))
      by tauto.
    clear Past.
    destruct (Z.lt_trichotomy (year now) 2025) as [Y|[Y|Y]];
      try (specialize (Before Y)); try (specialize (In2025 Y)); lia.
  - assert past by now apply Past.
    enough (Z.max 0 (calendar_days now - 1) = 0
            <-> 2025 < year now
                \/ (year now = 2025
                    /\ (7 < month now \/ (month now = 7 /\ 3 <= day now))))
      by (assert (3 <= day now <-> 3 < day now \/ day now = 3) by lia; tauto).
    clear Past.
    destruct (Z.lt_trichotomy (year now) 2025) as [Y|[Y|Y]];
      try (specialize (Before Y)); try (specialize (In2025 Y)); lia.
Qed.

(** The count around July 3, 2025, and in other years. *)
Example days_until_examples :
  days_until_july_four (mkDatetime 2025 1 1 0 0 0 0) = 184
  /\ days_until_july_four (mkDatetime 2025 1 1 9 30 0 0) = 183
  /\ days_until_july_four (mkDatetime 2025 7 2 23 59 59 999999) = 1
  /\ days_until_july_four (mkDatetime 2025 7 3 0 0 0 0) = 1
  /\ days_until_july_four (mkDatetime 2025 7 3 0 0 0 1) = 0
  /\ days_until_july_four (mkDatetime 2025 7 4 0 0 0 0) = 0
  /\ days_until_july_four (mkDatetime 2024 7 4 0 0 0 0) = 365
  /\ days_until_july_four (mkDatetime 2024 2 29 12 0 0 0) = 490
  /\ days_until_july_four (mkDatetime 2026 11 3 8 0 0 0) = 0.
Proof. vm_compute. repeat split. Qed.

(** X14 at noon of July 3, 2025. *)
Lemma days_until_counts_full_days_witness :
  valid (mkDatetime 2025 7 3 12 0 0 0) = true
  /\ days_until_july_four (mkDatetime 2025 7 3 12 0 0 0) = 0.
Proof.
  split; [reflexivity|].
  apply (proj2 (days_until_counts_full_days (mkDatetime 2025 7 3 12 0 0 0) eq_refl)).
  reflexivity.
Defined.

End DaysFacts.
